(** * s5cmd: the job-description parser ([core/parse.go]) and the batch
      driver of the [select] command ([command/select.go])

    A shallow embedding of the two Go sources.  Go strings are byte
    strings: they are modelled as lists of 8-bit characters, so that
    [s[i]], [len(s)] and the functions of package [strings] read as they
    do in Go.  The path separator is the Unix one. *)

From Stdlib Require Import String Ascii List Bool Arith NArith ZArith Lia.
Import ListNotations.

Set Implicit Arguments.

(** ** Go strings *)

Definition gostring := list ascii.

(** A string literal as a Go string. *)
Definition str (s : string) : gostring := list_ascii_of_string s.
Arguments str s%_string.

Definition dquote : ascii := ascii_of_nat 34.
Definition Separator : ascii := "/"%char.

Fixpoint gostring_eqb (a b : gostring) : bool :=
  match a, b with
  | [], [] => true
  | x :: a', y :: b' => Ascii.eqb x y && gostring_eqb a' b'
  | _, _ => false
  end.

(** [strings.HasPrefix(s, p)] *)
Fixpoint HasPrefix (s p : gostring) {struct p} : bool :=
  match p, s with
  | [], _ => true
  | x :: p', y :: s' => Ascii.eqb x y && HasPrefix s' p'
  | _ :: _, [] => false
  end.

(** [strings.HasSuffix(s, p)] *)
Definition HasSuffix (s p : gostring) : bool := HasPrefix (rev s) (rev p).

(** [strings.Contains(s, sub)] *)
Fixpoint Contains (s sub : gostring) : bool :=
  match s with
  | [] => HasPrefix [] sub
  | _ :: s' => HasPrefix s sub || Contains s' sub
  end.

(** [strings.ContainsAny(s, chars)] *)
Definition ContainsAny (s chars : gostring) : bool :=
  existsb (fun c => existsb (Ascii.eqb c) chars) s.

(** [strings.Split(s, sep)] for a non-empty [sep]: the pieces between the
    non-overlapping occurrences of [sep], found from the left.  [cur] is the
    piece being read, reversed; [skip] counts the bytes of an occurrence
    still to be passed over. *)
Fixpoint splitFrom (sep : gostring) (skip : nat) (cur : gostring) (s : gostring)
  : list gostring :=
  match s with
  | [] => [rev cur]
  | c :: s' =>
      match skip with
      | S k => splitFrom sep k cur s'
      | O => if HasPrefix s sep
             then rev cur :: splitFrom sep (length sep - 1) [] s'
             else splitFrom sep 0 (c :: cur) s'
      end
  end.

Definition Split (s sep : gostring) : list gostring := splitFrom sep 0 [] s.

(** [strings.Replace(s, old, new, -1)] for a non-empty [old]: every
    non-overlapping occurrence, found from the left, is replaced. *)
Fixpoint replaceFrom (old new : gostring) (skip : nat) (s : gostring) : gostring :=
  match s with
  | [] => []
  | c :: s' =>
      match skip with
      | S k => replaceFrom old new k s'
      | O => if HasPrefix s old
             then new ++ replaceFrom old new (length old - 1) s'
             else c :: replaceFrom old new 0 s'
      end
  end.

Definition ReplaceAll (s old new : gostring) : gostring := replaceFrom old new 0 s.

(** White space as [unicode.IsSpace] has it, read off the UTF-8 bytes:
    the six ASCII characters, U+0085 and U+00A0 (two bytes), U+1680,
    U+2000..U+200A, U+2028, U+2029, U+202F, U+205F and U+3000 (three). *)
Definition code (c : ascii) : N := N_of_ascii c.

Definition isSpace1 (c : ascii) : bool :=
  ((9 <=? code c) && (code c <=? 13) || (code c =? 32))%N.

Definition isSpace2 (a b : ascii) : bool :=
  ((code a =? 194) && ((code b =? 133) || (code b =? 160)))%N.

Definition isSpace3 (a b c : ascii) : bool :=
  ((code a =? 225) && (code b =? 154) && (code c =? 128)
   || (code a =? 226) && (code b =? 128)
      && ((128 <=? code c) && (code c <=? 138)
          || (code c =? 168) || (code c =? 169) || (code c =? 175))
   || (code a =? 226) && (code b =? 129) && (code c =? 159)
   || (code a =? 227) && (code b =? 128) && (code c =? 128))%N.

(** Leading white space removed, rune by rune. *)
Fixpoint trimLeftSpace (s : gostring) : gostring :=
  match s with
  | [] => []
  | a :: s1 =>
      if isSpace1 a then trimLeftSpace s1
      else match s1 with
           | [] => s
           | b :: s2 =>
               if isSpace2 a b then trimLeftSpace s2
               else match s2 with
                    | [] => s
                    | c :: s3 => if isSpace3 a b c then trimLeftSpace s3 else s
                    end
           end
  end.

(** Trailing white space removed: the same scan over the reversed bytes,
    where the last rune's bytes come last byte first. *)
Fixpoint trimRightSpaceRev (r : gostring) : gostring :=
  match r with
  | [] => []
  | a :: r1 =>
      if isSpace1 a then trimRightSpaceRev r1
      else match r1 with
           | [] => r
           | b :: r2 =>
               if isSpace2 b a then trimRightSpaceRev r2
               else match r2 with
                    | [] => r
                    | c :: r3 => if isSpace3 c b a then trimRightSpaceRev r3 else r
                    end
           end
  end.

(** [strings.TrimSpace(s)] *)
Definition TrimSpace (s : gostring) : gostring :=
  rev (trimRightSpaceRev (rev (trimLeftSpace s))).

(** ** The first lines of [ParseJob]: comment and white space *)

Definition normalize (jobdesc : gostring) : gostring :=
  let jobdesc := hd [] (Split jobdesc (str " #")) in
  let jobdesc := TrimSpace jobdesc in
  let jobdesc := ReplaceAll jobdesc (str "  ") (str " ") in
  let jobdesc := ReplaceAll jobdesc (str "  ") (str " ") in
  let jobdesc := ReplaceAll jobdesc (str "  ") (str " ") in
  jobdesc.

(** ** The three chaining patterns

    The patterns of [regexCmdAndOr], [regexCmdAnd] and [regexCmdOr] are
    built from four items only: [\s*] (greedy), a literal, the capturing
    group [(.+?)] (lazy) and the anchors [^] and [$] that every one of them
    has at its two ends.  [FindStringSubmatch] returns the leftmost match
    that a backtracking search finds first; the patterns are anchored, so
    the search starts at the first byte.  The operators and the white space
    are ASCII, so reading the text byte by byte gives the groups that
    reading it rune by rune gives. *)

Inductive item : Type :=
| WS                      (* \s*   *)
| Lit (l : gostring)      (* && or || *)
| Grp.                    (* (.+?) *)

(** [\s] is [[\t\n\f\r ]]. *)
Definition isReSpace (c : ascii) : bool :=
  ((code c =? 9) || (code c =? 10) || (code c =? 12) || (code c =? 13)
   || (code c =? 32))%N.

(** [.] matches every character but the newline. *)
Definition isDot (c : ascii) : bool := negb (code c =? 10)%N.

Fixpoint dropPrefix (p s : gostring) {struct p} : option gostring :=
  match p, s with
  | [], _ => Some s
  | x :: p', y :: s' => if Ascii.eqb x y then dropPrefix p' s' else None
  | _ :: _, [] => None
  end.

(** The backtracking search, one function per item; [k] is the search for
    the rest of the pattern.  [\s*] tries the longest run first. *)
Fixpoint wsStar (k : gostring -> option (list gostring)) (s : gostring)
  : option (list gostring) :=
  match s with
  | c :: s' =>
      if isReSpace c
      then match wsStar k s' with
           | Some m => Some m
           | None => k s
           end
      else k s
  | [] => k []
  end.

(** [(.+?)] tries the shortest text first; [acc] is the text taken so far,
    reversed. *)
Fixpoint grpLazy (k : gostring -> option (list gostring)) (acc : gostring)
    (s : gostring) : option (list gostring) :=
  match s with
  | c :: s' =>
      if isDot c
      then match k s' with
           | Some m => Some (rev (c :: acc) :: m)
           | None => grpLazy k (c :: acc) s'
           end
      else None
  | [] => None
  end.

Definition literal (l : gostring) (k : gostring -> option (list gostring))
    (s : gostring) : option (list gostring) :=
  match dropPrefix l s with
  | Some s' => k s'
  | None => None
  end.

(** [$] *)
Definition atEnd (s : gostring) : option (list gostring) :=
  match s with [] => Some [] | _ :: _ => None end.

(** [rmatch r s]: the groups of the match of [^r$] on [s] that the search
    finds first. *)
Fixpoint rmatch (r : list item) : gostring -> option (list gostring) :=
  match r with
  | [] => atEnd
  | WS :: r' => wsStar (rmatch r')
  | Lit l :: r' => literal l (rmatch r')
  | Grp :: r' => grpLazy (rmatch r') []
  end.

Definition regexCmdAndOr : list item :=
  [WS; Grp; WS; Lit (str "&&"); WS; Grp; WS; Lit (str "||"); WS; Grp; WS].
Definition regexCmdAnd : list item :=
  [WS; Grp; WS; Lit (str "&&"); WS; Grp; WS].
Definition regexCmdOr : list item :=
  [WS; Grp; WS; Lit (str "||"); WS; Grp; WS].

(** [re.FindStringSubmatch(s)]: [nil], or the whole match followed by the
    groups; the patterns are anchored at both ends, so the whole match is
    [s]. *)
Definition FindStringSubmatch (re : list item) (s : gostring)
  : option (list gostring) :=
  match rmatch re s with
  | Some groups => Some (s :: groups)
  | None => None
  end.

(** A segment of a chained line, as the lazy groups capture it between
    the operators: not empty, with no newline in it and no white space of
    the class [\s] at either end. *)
Definition noNewline (s : gostring) : bool := forallb isDot s.

Definition startsNonSpace (s : gostring) : bool :=
  match s with
  | c :: _ => negb (isReSpace c)
  | [] => false
  end.

Definition isSegment (s : gostring) : bool :=
  noNewline s && startsNonSpace s && startsNonSpace (rev s).

(** The text after its leading white space of the class [\s]. *)
Fixpoint skipSpace (s : gostring) : gostring :=
  match s with
  | c :: s' => if isReSpace c then skipSpace s' else s
  | [] => []
  end.


(** ** Data model *)

(** [opt.ParamType] *)
Inductive ParamType : Type :=
| Unchecked | UncheckedOneOrMore
| S3Obj | S3ObjOrDir | S3WildObj | S3Dir
| FileObj | FileOrDir | Dir | Glob.

Definition ParamType_eqb (a b : ParamType) : bool :=
  match a, b with
  | Unchecked, Unchecked | UncheckedOneOrMore, UncheckedOneOrMore
  | S3Obj, S3Obj | S3ObjOrDir, S3ObjOrDir | S3WildObj, S3WildObj
  | S3Dir, S3Dir | FileObj, FileObj | FileOrDir, FileOrDir
  | Dir, Dir | Glob, Glob => true
  | _, _ => false
  end.

(** A Go [error], by its message. *)
Definition error := gostring.

(** [url.S3Url] *)
Record S3Url : Type := mkS3Url { Bucket : gostring; Key : gostring }.

(** [JobArgument{arg, s3}] *)
Record JobArgument : Type := mkArg { arg : gostring; s3 : option S3Url }.

(** What [os.Stat] reports of a path. *)
Inductive StatResult : Type :=
| StatOk (isDir : bool)   (* err == nil, with st.IsDir() *)
| StatNotExist            (* an error that os.IsNotExist accepts *)
| StatFail.               (* any other error *)

(** [GlobCharacters] *)
Definition GlobCharacters : gostring := str "?*[".

Definition hasGlob (s : gostring) : bool := ContainsAny s (str "*[]?").

(** [filepath.Base(path)], Unix: trailing separators go, then everything up
    to the last separator; an empty path gives ".", one of separators only
    gives "/". *)
Fixpoint dropSeps (r : gostring) : gostring :=
  match r with
  | c :: r' => if Ascii.eqb c Separator then dropSeps r' else r
  | [] => []
  end.

Fixpoint takeElem (r : gostring) : gostring :=
  match r with
  | c :: r' => if Ascii.eqb c Separator then [] else c :: takeElem r'
  | [] => []
  end.

Definition Base (path : gostring) : gostring :=
  match path with
  | [] => str "."
  | _ :: _ =>
      match rev (takeElem (dropSeps (rev path))) with
      | [] => [Separator]
      | e => e
      end
  end.

(** The result of [parseArgumentByType]: [(a, nil)] or [(nil, err)]. *)
Inductive result (A : Type) : Type :=
| Ok (a : A)
| Err (e : error).
Arguments Err {A} e.

Section Validator.

(** Package [url] is not among the sources.  [url.ParseS3Url] and the
    method [Format] are parameters of the development. *)
Variable ParseS3Url : gostring -> result S3Url.
Variable Format : S3Url -> gostring.

(** Modelled from the spec: [url.HasWild], missing with package [url]:
    the key contains at least one wildcard character.  Which characters
    are wildcards is a parameter. *)
Variable wildChars : gostring.
Definition HasWild (key : gostring) : bool := ContainsAny key wildChars.

(** The file system, as [os.Stat] sees it. *)
Variable Stat : gostring -> StatResult.

(** The error of [filepath.Match(s, "")], [nil] for a well-formed
    pattern. *)
Variable MatchErr : gostring -> option error.

(** The token with which the local types go on: "." becomes "./". *)
Definition dotSlash (s : gostring) : gostring :=
  if gostring_eqb s (str ".") then str "." ++ [Separator] else s.

(** [len(s) > 0 && s[len(s)-1] == filepath.Separator] *)
Definition endsInSep (s : gostring) : bool :=
  match rev s with
  | c :: _ => Ascii.eqb c Separator
  | [] => false
  end.

(** The remote case of the switch, after [ParseS3Url] succeeded. *)
Definition parseS3Argument (t : ParamType) (fnBase : gostring) (uri : S3Url)
  : result JobArgument :=
  let s := str "s3://" ++ Format uri in
  if (ParamType_eqb t S3Obj || ParamType_eqb t S3ObjOrDir) && HasWild (Key uri)
  then Err (str "S3 key cannot contain wildcards")
  else if ParamType_eqb t S3WildObj && negb (HasWild (Key uri))
  then Err (str "S3 key should contain wildcards")
  else if ParamType_eqb t S3WildObj && gostring_eqb (Key uri) []
  then Err (str "S3 key should not be empty")
  else
    let endsInSlash := HasSuffix (Key uri) (str "/") in
    if endsInSlash && ParamType_eqb t S3Obj
    then Err (str "S3 key should not end with /")
    else if negb endsInSlash && ParamType_eqb t S3Dir
            && negb (gostring_eqb (Key uri) [])
    then Err (str "S3 dir should end with /")
    else
      let '(key, s) :=
        if ParamType_eqb t S3ObjOrDir && endsInSlash
           && negb (gostring_eqb fnBase [])
        then (Key uri ++ fnBase, s ++ fnBase)
        else (Key uri, s) in
      let '(key, s) :=
        if ParamType_eqb t S3ObjOrDir && gostring_eqb key []
           && negb (gostring_eqb fnBase [])
        then (key ++ fnBase, s ++ str "/" ++ fnBase)
        else (key, s) in
      Ok (mkArg s (Some (mkS3Url (Bucket uri) key))).

(** The local case of the switch, after [ParseS3Url] failed.  The first
    component lists the paths handed to [os.Stat], in order. *)
Definition parseLocalArgument (t : ParamType) (fnBase : gostring) (s : gostring)
  : list gostring * result JobArgument :=
  let s := dotSlash s in
  let endsInSlash := endsInSep s in
  if hasGlob s
  then ([], Err (str "Param should not contain glob characters"))
  else
    match t with
    | FileObj =>
        if endsInSlash
        then ([], Err (str "File param should not end with /"))
        else match Stat s with
             | StatOk true =>
                 ([s], Err (str "File param should not be a directory"))
             | _ => ([s], Ok (mkArg s None))
             end
    | FileOrDir =>
        if endsInSlash
        then ([], Ok (mkArg (if negb (gostring_eqb fnBase [])
                             then s ++ fnBase else s) None))
        else match Stat s with
             | StatFail => ([s], Err (str "Could not stat"))
             | StatOk true => ([s], Ok (mkArg (s ++ [Separator]) None))
             | _ => ([s], Ok (mkArg s None))
             end
    | Dir =>
        if negb endsInSlash
        then match Stat s with
             | StatFail => ([s], Err (str "Could not stat"))
             | StatOk false => ([s], Err (str "Dir param can not be file"))
             | _ => ([s], Ok (mkArg (s ++ [Separator]) None))
             end
        else ([], Ok (mkArg s None))
    | _ => ([], Ok (mkArg s None))
    end.

(** [parseArgumentByType(s, t, fnObj)], with the paths it stats. *)
Definition parseArgumentByTypeIO (s : gostring) (t : ParamType)
    (fnObj : option JobArgument) : list gostring * result JobArgument :=
  let fnBase :=
    match fnObj with
    | Some o =>
        if ParamType_eqb t S3ObjOrDir || ParamType_eqb t FileOrDir
        then Base (arg o) else []
    | None => []
    end in
  match t with
  | Unchecked | UncheckedOneOrMore => ([], Ok (mkArg s None))
  | S3Obj | S3ObjOrDir | S3WildObj | S3Dir =>
      match ParseS3Url s with
      | Err e => ([], Err e)
      | Ok uri => ([], parseS3Argument t fnBase uri)
      end
  | FileObj | FileOrDir | Dir =>
      match ParseS3Url s with
      | Ok _ => ([], Err (str "File param resembles s3 object"))
      | Err _ => parseLocalArgument t fnBase s
      end
  | Glob =>
      if negb (hasGlob s)
      then ([], Err (str "Param does not look like a glob"))
      else match MatchErr s with
           | Some e => ([], Err e)
           | None => ([], Ok (mkArg s None))
           end
  end.

(** The value [parseArgumentByType] returns. *)
Definition parseArgumentByType (s : gostring) (t : ParamType)
    (fnObj : option JobArgument) : result JobArgument :=
  snd (parseArgumentByTypeIO s t fnObj).

(** The paths [parseArgumentByType] hands to [os.Stat]. *)
Definition statCalls (s : gostring) (t : ParamType)
    (fnObj : option JobArgument) : list gostring :=
  fst (parseArgumentByTypeIO s t fnObj).

End Validator.

(** [fmt.Errorf] with the two formats of [parseSingleJob] that quote a
    keyword. *)
Definition quoted (kw : gostring) : gostring := [dquote] ++ kw ++ [dquote].
Definition invalidParameters (kw : gostring) : error :=
  str "Invalid parameters to " ++ quoted kw.
Definition unknownCommand (kw : gostring) : error :=
  str "Unknown command " ++ quoted kw.

(** ** Jobs and the command table *)

Section Parser.

(** [opt.OperationType] and [opt.OptionType], with the two methods
    [parseSingleJob] calls on them. *)
Variables Operation OptionType : Type.
Variable GetAcceptedOpts : Operation -> list OptionType.
Variable GetParam : OptionType -> gostring.

(** An entry of the table [commands]. *)
Record commandMap : Type := mkCommand {
  keyword : gostring;
  operation : Operation;
  params : list ParamType;
  opts : list OptionType
}.

(** [Job], with the fields [ParseJob] and [parseSingleJob] set.  The two
    counters are fresh and zero. *)
#[warnings="-register-all"]
Inductive Job : Type := mkJob {
  sourceDesc : gostring;
  command : gostring;
  jobOperation : Operation;
  args : list JobArgument;
  jobOpts : list OptionType;
  successCommand : option Job;
  failCommand : option Job;
  numSuccess : N;
  numFails : N
}.

(** What a call of [ParseJob] or [parseSingleJob] comes to: the pair it
    returns, [(j, nil)] with [j] possibly [nil] or [(nil, err)], or a
    run-time panic. *)
Inductive outcome : Type :=
| Returns (j : option Job)
| Fails (e : error)
| Panics.

Variable ParseS3Url : gostring -> result S3Url.
Variable Format : S3Url -> gostring.
Variable wildChars : gostring.
Variable Stat : gostring -> StatResult.
Variable MatchErr : gostring -> option error.

(** The table [commands] (declared in another file of the package). *)
Variable commands : list commandMap.

(** The option loop [for k := 1; k < len(parts); k++]: [rest] is
    [parts[k:]], [jopts] is [ourJob.opts].  It gives
    [fileArgsStartPosition] and the options, or nothing when [parts[k][0]]
    is read off an empty token. *)
Fixpoint scanOpts (accepted : list OptionType) (k : nat)
    (rest : list gostring) (jopts : list OptionType)
  : option (nat * list OptionType) :=
  match rest with
  | [] => Some (1, jopts)
  | p :: rest' =>
      match p with
      | [] => None
      | c0 :: _ =>
          if negb (Ascii.eqb c0 "-")
          then Some (k, jopts)
          else match filter (fun o => gostring_eqb p (GetParam o)) accepted with
               | [] => Some (k, jopts)
               | hits => scanOpts accepted (S k) rest' (jopts ++ hits)
               end
      end
  end.

(** A token that the option loop takes for an option: it starts with [-]
    and is the parameter of an accepted option. *)
Definition isAcceptedFlag (accepted : list OptionType) (p : gostring) : bool :=
  match p with
  | c0 :: _ =>
      Ascii.eqb c0 "-"
      && existsb (fun o => gostring_eqb p (GetParam o)) accepted
  | [] => false
  end.

(** The variables the two argument loops share. *)
Record argState : Type := mkArgState {
  stArgs : list JobArgument;
  fnObj : option JobArgument;
  parseArgErr : option error;
  maxI : nat;
  lastType : ParamType
}.

(** The loop [for i, t := range c.params], from index [i] on. *)
Fixpoint checkParams (parts : list gostring) (start : nat) (i : nat)
    (ts : list ParamType) (st : argState) : option argState :=
  match ts with
  | [] => Some st
  | t :: ts' =>
      match nth_error parts (start + i) with
      | None => None
      | Some p =>
          match parseArgumentByType ParseS3Url Format wildChars Stat MatchErr
                  p t (fnObj st) with
          | Err e =>
              Some (mkArgState (stArgs st) (fnObj st) (Some e)
                      (maxI st) (lastType st))
          | Ok a =>
              let fn :=
                match fnObj st with
                | None =>
                    if ParamType_eqb t S3Obj || ParamType_eqb t FileObj
                    then Some a else None
                | Some o => Some o
                end in
              checkParams parts start (S i) ts'
                (mkArgState (stArgs st ++ [a]) fn None i t)
          end
      end
  end.

(** The loop [for i, p := range parts] of the variable-arity case, from
    index [i] on: [ps] is [parts[i:]]. *)
Fixpoint checkRest (i : nat) (ps : list gostring) (st : argState) : argState :=
  match ps with
  | [] => st
  | p :: ps' =>
      if i <=? maxI st + 1
      then checkRest (S i) ps' st
      else
        match parseArgumentByType ParseS3Url Format wildChars Stat MatchErr
                p (lastType st) (fnObj st) with
        | Err e =>
            mkArgState (stArgs st) (fnObj st) (Some e) (maxI st) (lastType st)
        | Ok a =>
            checkRest (S i) ps'
              (mkArgState (stArgs st ++ [a]) (fnObj st) None
                 (maxI st) (lastType st))
        end
  end.

(** One turn of [for i, c := range commands] for an entry whose keyword
    is [parts[0]]. *)
Inductive candidate : Type :=
| CandPanic
| CandArity                 (* continue: the counts are not acceptable *)
| CandArgErr (e : error)    (* continue: not our command *)
| CandMatch (j : Job).      (* return ourJob, nil *)

Definition isVariadic (ps : list ParamType) : bool :=
  match rev ps with
  | t :: _ => ParamType_eqb t UncheckedOneOrMore
  | [] => false
  end.

Definition tryCommand (jobdesc : gostring) (parts : list gostring)
    (c : commandMap) : candidate :=
  match scanOpts (GetAcceptedOpts (operation c)) 1 (tl parts) (opts c) with
  | None => CandPanic
  | Some (fileArgsStartPosition, jopts) =>
      let suppliedParamCount :=
        (Z.of_nat (length parts) - Z.of_nat fileArgsStartPosition)%Z in
      let minCount := Z.of_nat (length (params c)) in
      let maxCount := if isVariadic (params c) then (-1)%Z else minCount in
      if ((suppliedParamCount <? minCount)
          || ((-1 <? maxCount) && (maxCount <? suppliedParamCount)))%Z
      then CandArity
      else
        match checkParams parts fileArgsStartPosition 0 (params c)
                (mkArgState [] None None fileArgsStartPosition
                   UncheckedOneOrMore) with
        | None => CandPanic
        | Some st =>
            let st :=
              match parseArgErr st with
              | None =>
                  if negb (minCount =? maxCount)%Z
                  then checkRest 0 parts st else st
              | Some _ => st
              end in
            match parseArgErr st with
            | Some e => CandArgErr e
            | None =>
                CandMatch (mkJob jobdesc (keyword c) (operation c)
                             (stArgs st) jopts None None 0 0)
            end
        end
  end.

(** The loop over [commands] and the three errors after it.  [i] is the
    index of the head of [cs], [found] and [perr] are the variables
    [found] and [parseArgErr]. *)
Fixpoint tryCommands (jobdesc : gostring) (parts : list gostring) (i : nat)
    (cs : list commandMap) (found : option nat) (perr : option error)
  : outcome :=
  match cs with
  | [] =>
      match found with
      | Some n =>
          match perr with
          | Some e =>
              Fails (invalidParameters
                       match nth_error commands n with
                       | Some c => keyword c
                       | None => []
                       end
                     ++ str ": " ++ e)
          | None => Fails (invalidParameters (hd [] parts))
          end
      | None => Fails (unknownCommand (hd [] parts))
      end
  | c :: cs' =>
      if gostring_eqb (hd [] parts) (keyword c)
      then match tryCommand jobdesc parts c with
           | CandPanic => Panics
           | CandArity => tryCommands jobdesc parts (S i) cs' (Some i) perr
           | CandArgErr e =>
               tryCommands jobdesc parts (S i) cs' (Some i) (Some e)
           | CandMatch j => Returns (Some j)
           end
      else tryCommands jobdesc parts (S i) cs' found perr
  end.

Definition nestedError : error := str "Nested commands are not supported".

Definition parseSingleJob (jobdesc : gostring) : outcome :=
  match jobdesc with
  | [] => Returns None
  | c0 :: _ =>
      if Ascii.eqb c0 "#" then Returns None
      else if Contains jobdesc (str "&&") then Fails nestedError
      else if Contains jobdesc (str "||") then Fails nestedError
      else tryCommands jobdesc (Split jobdesc (str " ")) 0 commands None None
  end.

(** [j, err = parseSingleJob(x); if err != nil { return nil, err }] *)
Definition andThen (o : outcome) (k : option Job -> outcome) : outcome :=
  match o with
  | Returns j => k j
  | Fails e => Fails e
  | Panics => Panics
  end.

(** The end of [ParseJob]: the two links are set when [j] is not [nil]. *)
Definition link (j s f : option Job) : outcome :=
  match j with
  | Some job =>
      Returns (Some (mkJob (sourceDesc job) (command job) (jobOperation job)
                       (args job) (jobOpts job) s f
                       (numSuccess job) (numFails job)))
  | None => Returns None
  end.

Definition ParseJob (jobdesc : gostring) : outcome :=
  let jobdesc := normalize jobdesc in
  match FindStringSubmatch regexCmdAndOr jobdesc with
  | Some res =>
      andThen (parseSingleJob (nth 1 res [])) (fun j =>
      andThen (parseSingleJob (nth 2 res [])) (fun s =>
      andThen (parseSingleJob (nth 3 res [])) (fun f =>
      link j s f)))
  | None =>
      match FindStringSubmatch regexCmdAnd jobdesc with
      | Some res =>
          andThen (parseSingleJob (nth 1 res [])) (fun j =>
          andThen (parseSingleJob (nth 2 res [])) (fun s =>
          link j s None))
      | None =>
          match FindStringSubmatch regexCmdOr jobdesc with
          | Some res =>
              andThen (parseSingleJob (nth 1 res [])) (fun j =>
              andThen (parseSingleJob (nth 2 res [])) (fun f =>
              link j None f))
          | None =>
              andThen (parseSingleJob jobdesc) (fun j => link j None None)
          end
      end
  end.

End Parser.

Arguments Returns {Operation OptionType} j.
Arguments Fails {Operation OptionType} e.
Arguments Panics {Operation OptionType}.
Arguments CandPanic {Operation OptionType}.
Arguments CandArity {Operation OptionType}.
Arguments CandArgErr {Operation OptionType} e.

(** ** The driver of a batch: [Select.Run]

    [Run] starts a collector goroutine, walks the channel of objects and
    submits one task per object it keeps, waits for the tasks and for the
    collector, and returns [merror].  The model keeps what decides the
    returned value and the reports: the objects in the order the channel
    yields them, what the main goroutine prints, which tasks it submits,
    and the errors the collector receives on [waiter.Err()], in the order
    of their arrival. *)

Module SelectCmd.

Section Run.

(** [*url.URL], and the errors of this package's collaborators. *)
Variable URL : Type.
Variable err : Type.

(** An object of the channel [objch]. *)
Record Object : Type := mkObject {
  objURL : URL;
  objIsDir : bool;            (* object.Type.IsDir() *)
  objErr : option err;        (* object.Err *)
  objIsGlacier : bool         (* object.StorageClass.IsGlacier() *)
}.

(** [errorpkg.IsCancelation], applied to a possibly [nil] error. *)
Variable IsCancelation : option err -> bool.

(** [fmt.Errorf("object '%v' is on Glacier storage", object)] *)
Variable glacierError : Object -> err.

(** Package [parallel] is not among the sources: what [waiter.Err()]
    yields, in order of arrival, once the tasks submitted for the given
    URLs have run, is a parameter. *)
Variable delivered : list URL -> list err.

(** The type switch of [multierror.Append] on an error: the [Errors] of
    an error whose type is [*multierror.Error] (none for a [nil] pointer
    of that type), and nothing for an error of another type. *)
Variable asMultierror : err -> option (list err).

(** The value of type [error] that [Run] returns. *)
Inductive returned : Type :=
| Nil                               (* nil *)
| Plain (e : err)                   (* an error of the set-up *)
| Aggregate (errs : list err).      (* a *multierror.Error *)

(** [multierror.Append(merror, e)] for an error [e] that is not [nil]:
    the result is a [*multierror.Error]; an [e] of that type is
    flattened, its entries are appended in place of [e] itself.  A first
    argument that is no [*multierror.Error] becomes the first entry. *)
Definition Append (merror : returned) (e : err) : returned :=
  let es := match asMultierror e with
            | Some sub => sub
            | None => [e]
            end in
  match merror with
  | Nil => Aggregate es
  | Plain e0 =>
      match asMultierror e0 with
      | Some sub0 => Aggregate (sub0 ++ es)
      | None => Aggregate (e0 :: es)
      end
  | Aggregate errs => Aggregate (errs ++ es)
  end.

(** What the main goroutine has done so far. *)
Record loopState : Type := mkLoop {
  printed : list err;       (* printError calls, oldest first *)
  submitted : list URL      (* parallel.Run calls, oldest first *)
}.

(** One turn of [for object := range objch]. *)
Definition step (st : loopState) (object : Object) : loopState :=
  if objIsDir object || IsCancelation (objErr object) then st
  else match objErr object with
       | Some e => mkLoop (printed st ++ [e]) (submitted st)
       | None =>
           if objIsGlacier object
           then mkLoop (printed st ++ [glacierError object]) (submitted st)
           else mkLoop (printed st) (submitted st ++ [objURL object])
       end.

Definition loop (objch : list Object) : loopState :=
  fold_left step objch (mkLoop [] []).

(** The collector: [for err := range waiter.Err()]. *)
Definition collect (errs : list err) : returned :=
  fold_left Append errs Nil.

(** What a run leaves behind. *)
Record run : Type := mkRun {
  mainPrinted : list err;        (* printed by the main goroutine *)
  collectorPrinted : list err;   (* printed by the collector *)
  tasks : list URL;              (* the tasks submitted *)
  value : returned               (* the returned error *)
}.

(** [Run]: [setup] is the outcome of [url.New], [NewRemoteClient] and
    [expandSource], the channel's objects or the first error. *)
Definition Run (setup : list Object + err) : run :=
  match setup with
  | inr e => mkRun [e] [] [] (Plain e)
  | inl objch =>
      let st := loop objch in
      let errs := delivered (submitted st) in
      mkRun (printed st) errs (submitted st) (collect errs)
  end.

(** The objects for which a task is submitted. *)
Definition kept (object : Object) : bool :=
  negb (objIsDir object) && negb (IsCancelation (objErr object))
  && match objErr object with Some _ => false | None => true end
  && negb (objIsGlacier object).

(** What the main goroutine prints for an object, if anything. *)
Definition report (object : Object) : list err :=
  if objIsDir object || IsCancelation (objErr object) then []
  else match objErr object with
       | Some e => [e]
       | None => if objIsGlacier object then [glacierError object] else []
       end.

End Run.

Arguments Nil {err}.

End SelectCmd.

(** ** The [select] command around [Run]

    [validateSelectCommand] is the command's [Before] hook and [Run] its
    [Action]; the command-line library runs the action only when the hook
    returned no error.  [url.New], [IsRemote], [storage.NewRemoteClient]
    and [expandSource] are parameters. *)

Module SelectEntry.

Section Entry.

Variables URL err client : Type.
Variable urlNew : gostring -> URL + err.
Variable IsRemote : URL -> bool.
Variable NewRemoteClient : URL -> client + err.
Variable expandSource : client -> URL -> list (SelectCmd.Object URL err) + err.
Variable IsCancelation : option err -> bool.
Variable glacierError : SelectCmd.Object URL err -> err.
Variable delivered : list URL -> list err.
Variable asMultierror : err -> option (list err).

(** [fmt.Errorf] with a constant format. *)
Variable errorf : gostring -> err.

(** [c.Args().Get(0)]: the first argument, or the empty string. *)
Definition Get0 (args : list gostring) : gostring := hd [] args.

(** [validateSelectCommand(c)]: [nil] or the error. *)
Definition validateSelectCommand (args : list gostring) : option err :=
  if negb (length args =? 1)
  then Some (errorf (str "expected source argument"))
  else match urlNew (Get0 args) with
       | inr e => Some e
       | inl srcurl =>
           if negb (IsRemote srcurl)
           then Some (errorf (str "source must be remote"))
           else None
       end.

(** The three steps at the head of [Run], each of which returns its
    error. *)
Definition setUp (src : gostring) : list (SelectCmd.Object URL err) + err :=
  match urlNew src with
  | inr e => inr e
  | inl srcurl =>
      match NewRemoteClient srcurl with
      | inr e => inr e
      | inl cl => expandSource cl srcurl
      end
  end.

(** The action: [Select{src: c.Args().Get(0), ...}.Run(c.Context)]. *)
Definition Action (args : list gostring) : SelectCmd.run URL err :=
  SelectCmd.Run IsCancelation glacierError delivered asMultierror
    (setUp (Get0 args)).

(** The command: what the hook printed and returned, or the run of the
    action. *)
Definition selectCommand (args : list gostring)
  : (list err * err) + SelectCmd.run URL err :=
  match validateSelectCommand args with
  | Some e => inl ([e], e)
  | None => inr (Action args)
  end.

End Entry.

End SelectEntry.


(** ** Names for parts of the code that the further properties speak of *)

(** The two groups of cases of the switch of [parseArgumentByType]. *)
Definition isS3Type (t : ParamType) : bool :=
  match t with S3Obj | S3ObjOrDir | S3WildObj | S3Dir => true | _ => false end.

Definition isLocalType (t : ParamType) : bool :=
  match t with FileObj | FileOrDir | Dir => true | _ => false end.

(** The three calls of [strings.Replace] in [ParseJob]. *)
Definition collapseSpaces (s : gostring) : gostring :=
  ReplaceAll (ReplaceAll (ReplaceAll s (str "  ") (str " ")) (str "  ") (str " "))
    (str "  ") (str " ").

(** What one call of [strings.Replace] makes of the length of a run of
    spaces: every pair becomes one space. *)
Definition halved (n : nat) : nat := (n + 1) / 2.

(** A character with no space in it, for a token. *)
Definition notSpace (c : ascii) : bool := negb (Ascii.eqb c " ").

(** A printable ASCII character other than the space. *)
Definition isGraph (c : ascii) : bool := ((33 <=? code c) && (code c <=? 126))%N.


(** A text that starts with a printable ASCII character other than the
    space. *)
Definition startsGraph (s : gostring) : bool :=
  match s with
  | c :: _ => isGraph c
  | [] => false
  end.


(** A run of [n] spaces. *)
Definition spaces (n : nat) : gostring := repeat " "%char n.

(** Words with a run of spaces before each but the first. *)
Fixpoint spaced (w0 : gostring) (rest : list (nat * gostring)) : gostring :=
  match rest with
  | [] => w0
  | (n, w) :: rest' => w0 ++ spaces n ++ spaced w rest'
  end.

(** A token of a job description: not empty and with no space in it. *)
Definition isWord (w : gostring) : bool :=
  match w with
  | [] => false
  | _ :: _ => forallb notSpace w
  end.


(** What a lazy group [(.+?)] can capture: at least one character, none
    of them a newline. *)
Definition isCaptured (g : gostring) : bool :=
  match g with
  | [] => false
  | _ :: _ => noNewline g
  end.

(** White space of the class [\s] only. *)
Definition isWhite (w : gostring) : bool := forallb isReSpace w.

(** [fits r s m]: the text [s] is made of the items of [r], one after the
    other, with the groups [m]. *)
Fixpoint fits (r : list item) (s : gostring) (m : list gostring) : Prop :=
  match r with
  | [] => s = [] /\ m = []
  | WS :: r' => exists w t, s = w ++ t /\ isWhite w = true /\ fits r' t m
  | Lit l :: r' => exists t, s = l ++ t /\ fits r' t m
  | Grp :: r' =>
      exists g t m', s = g ++ t /\ isCaptured g = true /\ m = g :: m'
                     /\ fits r' t m'
  end.

(** The shapes of the three patterns: segments between operators, with
    white space around them. *)
Definition shapeAndOr (line a b c : gostring) : Prop :=
  exists w1 w2 w3 w4 w5 w6,
    line = w1 ++ a ++ w2 ++ str "&&" ++ w3 ++ b ++ w4 ++ str "||" ++ w5 ++ c ++ w6
    /\ forallb isWhite [w1; w2; w3; w4; w5; w6] = true
    /\ forallb isCaptured [a; b; c] = true.

Definition shapeAnd (line a b : gostring) : Prop :=
  exists w1 w2 w3 w4,
    line = w1 ++ a ++ w2 ++ str "&&" ++ w3 ++ b ++ w4
    /\ forallb isWhite [w1; w2; w3; w4] = true
    /\ forallb isCaptured [a; b] = true.

Definition shapeOr (line a b : gostring) : Prop :=
  exists w1 w2 w3 w4,
    line = w1 ++ a ++ w2 ++ str "||" ++ w3 ++ b ++ w4
    /\ forallb isWhite [w1; w2; w3; w4] = true
    /\ forallb isCaptured [a; b] = true.


(** ** A small installation for the examples

    The command table, package [url] and the file system are parameters of
    the parser.  The examples below run it on this installation. *)

Module Sample.

Inductive Operation : Type := OpLocalCopy | OpEcho | OpListBuckets.
Inductive OptionType : Type := OptNoClobber | OptIfSizeDiffer | OptNoNewline.

Definition GetAcceptedOpts (o : Operation) : list OptionType :=
  match o with
  | OpLocalCopy => [OptNoClobber; OptIfSizeDiffer]
  | OpEcho => [OptNoNewline]
  | OpListBuckets => []
  end.

Definition GetParam (o : OptionType) : gostring :=
  match o with
  | OptNoClobber => str "-n"
  | OptIfSizeDiffer => str "-s"
  | OptNoNewline => str "-n"
  end.

(** Modelled from the spec: the table [commands], which is declared in a
    file that is not among the sources.  The spec's examples copy a file
    to a directory with [cp] and print free text with [echo]. *)
Definition commands : list (commandMap Operation OptionType) :=
  [ mkCommand (str "ls") OpListBuckets [] [];
    mkCommand (str "cp") OpLocalCopy [FileObj; FileOrDir] [];
    mkCommand (str "echo") OpEcho [UncheckedOneOrMore] [] ].

(** Modelled from the spec: [url.ParseS3Url], missing with package [url]:
    a remote location is a token [s3://bucket/key], the key possibly
    empty. *)
Definition ParseS3Url (s : gostring) : result S3Url :=
  match dropPrefix (str "s3://") s with
  | None => Err (str "S3 url should start with s3://")
  | Some rest =>
      match takeElem rest with
      | [] => Err (str "S3 url should have a bucket")
      | bucket => Ok (mkS3Url bucket (skipn (length bucket + 1) rest))
      end
  end.

(** Modelled from the spec: the method [Format], missing with package
    [url]: the bucket, then a separator and the key when there is one. *)
Definition Format (u : S3Url) : gostring :=
  match Key u with
  | [] => Bucket u
  | k => Bucket u ++ str "/" ++ k
  end.

Definition wildChars : gostring := str "?*".

(** A file system with a file, a directory and a path that [os.Stat]
    cannot read; no other path exists. *)
Definition Stat (path : gostring) : StatResult :=
  if gostring_eqb path (str "a.txt") then StatOk false
  else if gostring_eqb path (str "b") || gostring_eqb path (str "b/")
  then StatOk true
  else if gostring_eqb path (str "locked") then StatFail
  else StatNotExist.

(** [filepath.Match] rejects a pattern with an open bracket expression. *)
Definition MatchErr (s : gostring) : option error :=
  if ContainsAny s (str "[") && negb (ContainsAny s (str "]"))
  then Some (str "syntax error in pattern") else None.

Definition parseArgumentByType :=
  parseArgumentByType ParseS3Url Format wildChars Stat MatchErr.
Definition parseSingleJob :=
  parseSingleJob GetAcceptedOpts GetParam ParseS3Url Format wildChars Stat
    MatchErr commands.
Definition ParseJob :=
  ParseJob GetAcceptedOpts GetParam ParseS3Url Format wildChars Stat
    MatchErr commands.

End Sample.

(** A small batch for the examples: URLs and errors are strings. *)
Module SampleRun.

Definition IsCancelation (e : option gostring) : bool :=
  match e with
  | Some m => gostring_eqb m (str "context canceled")
  | None => false
  end.

Definition glacierError (o : SelectCmd.Object gostring gostring) : gostring :=
  str "object '" ++ SelectCmd.objURL o ++ str "' is on Glacier storage".

(** What the task prepared for a URL returns. *)
Definition runTask (u : gostring) : option gostring :=
  if gostring_eqb u (str "s3://bucket/denied") then Some (str "AccessDenied")
  else if gostring_eqb u (str "s3://bucket/slow")
  then Some (str "2 errors occurred")
  else None.

(** Modelled from the spec: the Waiter of package [parallel], which is
    not among the sources: [Err()] passes on the error of every submitted
    unit that failed.  Here the units finish in the order of their
    submission. *)
Definition delivered (urls : list gostring) : list gostring :=
  flat_map (fun u => match runTask u with Some e => [e] | None => [] end) urls.

(** The one error of the sample that is a [*multierror.Error], and its
    entries. *)
Definition asMultierror (e : gostring) : option (list gostring) :=
  if gostring_eqb e (str "2 errors occurred")
  then Some [str "read: timeout"; str "close: timeout"]
  else None.

Definition Run :=
  SelectCmd.Run IsCancelation glacierError delivered asMultierror.

Definition file (u : string) : SelectCmd.Object gostring gostring :=
  SelectCmd.mkObject (str u) false None false.
Definition archived (u : string) : SelectCmd.Object gostring gostring :=
  SelectCmd.mkObject (str u) false None true.
Definition unreadable (u e : string) : SelectCmd.Object gostring gostring :=
  SelectCmd.mkObject (str u) false (Some (str e)) false.

End SampleRun.


(** * Properties *)

(** ** Go strings *)

Lemma gostring_eqb_refl (a : gostring) : gostring_eqb a a = true.
Proof.
  induction a as [|x a IH]; simpl; [reflexivity|].
  now rewrite Ascii.eqb_refl, IH.
Qed.

Lemma gostring_eqb_eq (a b : gostring) : gostring_eqb a b = true <-> a = b.
Proof.
  split; [|intros ->; apply gostring_eqb_refl].
  revert b; induction a as [|x a IH]; intros [|y b]; simpl; try discriminate; auto.
  rewrite andb_true_iff, Ascii.eqb_eq. intros [-> H]. f_equal. now apply IH.
Qed.

Lemma gostring_eqb_neq (a b : gostring) : gostring_eqb a b = false <-> a <> b.
Proof.
  rewrite <- gostring_eqb_eq. destruct (gostring_eqb a b); split; congruence.
Qed.

Lemma ContainsAny_app (a b chars : gostring) :
  ContainsAny (a ++ b) chars = ContainsAny a chars || ContainsAny b chars.
Proof. unfold ContainsAny. apply existsb_app. Qed.

Lemma ContainsAny_true (s chars : gostring) :
  ContainsAny s chars = true <-> exists c, In c s /\ In c chars.
Proof.
  unfold ContainsAny. rewrite existsb_exists. split.
  - intros (c & Hc & H). apply existsb_exists in H as (d & Hd & E).
    apply Ascii.eqb_eq in E. subst d. now exists c.
  - intros (c & Hc & H). exists c. split; [assumption|].
    apply existsb_exists. exists c. split; [assumption|apply Ascii.eqb_refl].
Qed.

(** ** [filepath.Base] never returns the empty string *)

Lemma takeElem_no_sep (r : gostring) : ~ In Separator (takeElem r).
Proof.
  induction r as [|c r IH]; simpl; [tauto|].
  destruct (Ascii.eqb c Separator) eqn:E; simpl; [tauto|].
  intros [->|H]; [|tauto]. now rewrite Ascii.eqb_refl in E.
Qed.

Lemma Base_nonempty (path : gostring) : Base path <> [].
Proof.
  unfold Base. destruct path as [|c p]; [discriminate|].
  destruct (rev (takeElem (dropSeps (rev (c :: p))))); discriminate.
Qed.

Lemma Base_eqb_nil (path : gostring) : gostring_eqb (Base path) [] = false.
Proof. apply gostring_eqb_neq, Base_nonempty. Qed.

(** ** The type validator *)

Section ValidatorFacts.

Variable ParseS3Url : gostring -> result S3Url.
Variable Format : S3Url -> gostring.
Variable wildChars : gostring.
Variable Stat : gostring -> StatResult.
Variable MatchErr : gostring -> option error.

Local Abbreviation validate :=
  (parseArgumentByType ParseS3Url Format wildChars Stat MatchErr).
Local Abbreviation stats :=
  (statCalls ParseS3Url Format wildChars Stat MatchErr).

Lemma hasGlob_chars (s : gostring) :
  hasGlob s = true <->
  exists c, In c s /\ (c = "*" \/ c = "[" \/ c = "]" \/ c = "?")%char.
Proof.
  unfold hasGlob. rewrite ContainsAny_true. split.
  - intros (c & Hc & H). exists c. split; [assumption|].
    simpl in H. intuition auto.
  - intros (c & Hc & H). exists c. split; [assumption|].
    simpl. intuition auto.
Qed.

Lemma hasGlob_dotSlash (s : gostring) : hasGlob (dotSlash s) = hasGlob s.
Proof.
  unfold dotSlash. destruct (gostring_eqb s (str ".")) eqn:E; [|reflexivity].
  apply gostring_eqb_eq in E. now subst s.
Qed.

Lemma dotSlash_other (s : gostring) : s <> str "." -> dotSlash s = s.
Proof.
  intros H. unfold dotSlash. apply gostring_eqb_neq in H. now rewrite H.
Qed.

(** The local types with a token that is not a remote location. *)
Lemma validate_local (s : gostring) (t : ParamType) (o : option JobArgument)
    (e : error) :
  ParseS3Url s = Err e ->
  (t = FileObj \/ t = FileOrDir \/ t = Dir) ->
  parseArgumentByTypeIO ParseS3Url Format wildChars Stat MatchErr s t o
  = parseLocalArgument Stat t
      (match o with
       | Some a => if ParamType_eqb t S3ObjOrDir || ParamType_eqb t FileOrDir
                   then Base (arg a) else []
       | None => []
       end) s.
Proof.
  intros HP [-> | [-> | ->]]; unfold parseArgumentByTypeIO; now rewrite HP.
Qed.

(** C6.  Where the validator departs from [GlobCharacters], the glob
    characters for local files: [hasGlob] tests the closing bracket as
    well.  A token with a closing bracket and none of [?], [*], [[] that
    is no remote location is refused as [FileObj] with the error on glob
    characters, and is accepted as [Glob] exactly when [filepath.Match]
    reports no error for it. *)
Theorem closing_bracket_counts_as_glob (s : gostring) (o : option JobArgument)
    (e : error) :
  ContainsAny s GlobCharacters = false ->
  ContainsAny s (str "]") = true ->
  ParseS3Url s = Err e ->
  hasGlob s = true
  /\ validate s FileObj o = Err (str "Param should not contain glob characters")
  /\ ((exists a, validate s Glob o = Ok a) <-> MatchErr s = None)
  /\ (MatchErr s = None -> validate s Glob o = Ok (mkArg s None)).
Proof.
  intros _ Hb HP.
  assert (Hg : hasGlob s = true).
  { unfold hasGlob. apply ContainsAny_true.
    apply ContainsAny_true in Hb as (c & Hc & [<-|[]]).
    exists "]"%char. split; [assumption|]. cbn. tauto. }
  split; [exact Hg|].
  unfold parseArgumentByType, parseArgumentByTypeIO. rewrite HP, Hg.
  unfold parseLocalArgument. rewrite hasGlob_dotSlash, Hg. cbn [negb snd].
  split; [reflexivity|].
  destruct (MatchErr s) as [e'|]; cbn [snd]; split.
  - split; [intros [a H]; discriminate|discriminate].
  - discriminate.
  - split; [reflexivity|intros _; eexists; reflexivity].
  - reflexivity.
Qed.

(** X27.  What the validator tests, character by character.  A token is
    accepted as [Glob] exactly when it holds one of the characters [*],
    [[], []], [?] and [filepath.Match] reports no error for it, and it
    is returned as it is; a token is rejected as [FileObj] with the error
    on glob characters exactly when it is not a remote location and holds
    one of these four characters. *)
Theorem glob_characters_checked (s : gostring) (o : option JobArgument) :
  ((exists a, validate s Glob o = Ok a)
   <-> hasGlob s = true /\ MatchErr s = None)
  /\ (forall a, validate s Glob o = Ok a -> a = mkArg s None)
  /\ (validate s FileObj o
        = Err (str "Param should not contain glob characters")
      <-> (exists e, ParseS3Url s = Err e) /\ hasGlob s = true)
  /\ (hasGlob s = true
      <-> exists c, In c s /\ (c = "*" \/ c = "[" \/ c = "]" \/ c = "?")%char).
Proof.
  split; [|split; [|split]].
  - unfold parseArgumentByType, parseArgumentByTypeIO.
    destruct (hasGlob s); simpl.
    + destruct (MatchErr s); simpl; split.
      * intros [a H]; discriminate.
      * intros [_ H]; discriminate.
      * intros _; split; reflexivity.
      * intros _; eexists; reflexivity.
    + split; [intros [a H]; discriminate|intros [H _]; discriminate].
  - unfold parseArgumentByType, parseArgumentByTypeIO.
    destruct (hasGlob s); simpl.
    + destruct (MatchErr s); simpl; intros a H; [discriminate|congruence].
    + intros a H; discriminate.
  - unfold parseArgumentByType. fold (str "Param should not contain glob characters").
    destruct (ParseS3Url s) as [u|e] eqn:HP.
    + unfold parseArgumentByTypeIO. rewrite HP. simpl.
      split; [discriminate|]. intros [[e H] _]; discriminate.
    + rewrite (@validate_local s FileObj o e HP (or_introl eq_refl)).
      unfold parseLocalArgument. rewrite hasGlob_dotSlash.
      destruct (hasGlob s); simpl.
      * split; [intros _; split; [now exists e|reflexivity]|reflexivity].
      * split; [|intros [_ H]; discriminate].
        destruct (endsInSep (dotSlash s)); simpl; [discriminate|].
        destruct (Stat (dotSlash s)) as [[|]| |]; simpl; discriminate.
  - apply hasGlob_chars.
Qed.


(** C7 (as amended).  A remote token validated as [S3ObjOrDir] with a
    borrowed basename: when its key is empty, the key becomes the
    basename and the canonical string gets a separator and the basename;
    when its key ends in a separator and holds no wildcard character,
    the basename is appended to the key and to the canonical string; a
    key with a wildcard character is rejected. *)
Theorem S3ObjOrDir_borrows_basename (s : gostring) (uri : S3Url)
    (o : JobArgument) :
  ParseS3Url s = Ok uri ->
  (Key uri = [] ->
   validate s S3ObjOrDir (Some o)
   = Ok (mkArg ((str "s3://" ++ Format uri) ++ str "/" ++ Base (arg o))
           (Some (mkS3Url (Bucket uri) (Base (arg o))))))
  /\ (HasSuffix (Key uri) (str "/") = true ->
      HasWild wildChars (Key uri) = false ->
      validate s S3ObjOrDir (Some o)
      = Ok (mkArg ((str "s3://" ++ Format uri) ++ Base (arg o))
              (Some (mkS3Url (Bucket uri) (Key uri ++ Base (arg o))))))
  /\ (HasWild wildChars (Key uri) = true ->
      validate s S3ObjOrDir (Some o)
      = Err (str "S3 key cannot contain wildcards")).
Proof.
  intros HP.
  unfold parseArgumentByType, parseArgumentByTypeIO. rewrite HP.
  cbv beta iota delta [snd ParamType_eqb orb].
  unfold parseS3Argument. cbv beta iota delta [ParamType_eqb orb andb negb].
  split; [|split].
  - intros HK. rewrite HK. unfold HasWild, ContainsAny. simpl existsb.
    rewrite Base_eqb_nil. reflexivity.
  - intros HS HW. rewrite HW, HS, Base_eqb_nil. cbv beta iota.
    assert (E : gostring_eqb (Key uri ++ Base (arg o)) [] = false).
    { apply gostring_eqb_neq. intros E. apply app_eq_nil in E.
      destruct E as [_ E]. now apply Base_nonempty in E. }
    rewrite E. reflexivity.
  - intros HW. rewrite HW. reflexivity.
Qed.

(** C8 (as amended).  A token that is not a remote location, holds none
    of the characters [*], [[], []], [?], is not "." and does not end in
    a separator, validated as [Dir]: the path is handed to [os.Stat]
    once; an existing path that is not a directory is rejected, a path
    that does not exist is accepted with a separator appended (as an
    existing directory is), and any other failure of [os.Stat] is an
    error. *)
Theorem Dir_without_separator (s : gostring) (o : option JobArgument)
    (e : error) :
  ParseS3Url s = Err e ->
  hasGlob s = false ->
  gostring_eqb s (str ".") = false ->
  endsInSep s = false ->
  (Stat s = StatOk false ->
   validate s Dir o = Err (str "Dir param can not be file"))
  /\ (Stat s = StatNotExist ->
      validate s Dir o = Ok (mkArg (s ++ [Separator]) None))
  /\ (Stat s = StatOk true ->
      validate s Dir o = Ok (mkArg (s ++ [Separator]) None))
  /\ (Stat s = StatFail -> validate s Dir o = Err (str "Could not stat"))
  /\ stats s Dir o = [s].
Proof.
  intros HP HG Hdot HE.
  unfold parseArgumentByType, statCalls.
  rewrite (@validate_local s Dir o e HP (or_intror (or_intror eq_refl))).
  apply gostring_eqb_neq in Hdot.
  unfold parseLocalArgument. rewrite (dotSlash_other Hdot), HG, HE.
  cbv beta iota delta [negb].
  destruct (Stat s) as [[|]| |]; repeat split; intros; try discriminate;
    reflexivity.
Qed.

(** C10 (as amended).  The local types go on with "./" for the token
    "." and with the token itself otherwise.  For "." no path is handed
    to [os.Stat]; [FileObj] rejects it for its final separator, [Dir]
    returns "./", and [FileOrDir] returns "./" followed by the borrowed
    basename when there is one. *)
Theorem dot_is_dot_slash (o : option JobArgument) (e : error) :
  ParseS3Url (str ".") = Err e ->
  dotSlash (str ".") = str "./"
  /\ (forall s, s <> str "." -> dotSlash s = s)
  /\ validate (str ".") FileObj o
     = Err (str "File param should not end with /")
  /\ validate (str ".") Dir o = Ok (mkArg (str "./") None)
  /\ validate (str ".") FileOrDir o
     = Ok (mkArg (match o with
                  | Some a => str "./" ++ Base (arg a)
                  | None => str "./"
                  end) None)
  /\ stats (str ".") FileObj o = []
  /\ stats (str ".") Dir o = []
  /\ stats (str ".") FileOrDir o = [].
Proof.
  intros HP.
  split; [reflexivity|]. split; [exact dotSlash_other|].
  unfold parseArgumentByType, statCalls.
  rewrite (@validate_local _ FileObj o e HP (or_introl eq_refl)).
  rewrite (@validate_local _ Dir o e HP (or_intror (or_intror eq_refl))).
  rewrite (@validate_local _ FileOrDir o e HP (or_intror (or_introl eq_refl))).
  destruct o as [a|]; cbn; rewrite ?Base_eqb_nil; cbn; repeat split.
Qed.


End ValidatorFacts.

(** ** The chaining patterns *)

Lemma HasPrefix_app (l s : gostring) : HasPrefix (l ++ s) l = true.
Proof.
  induction l as [|x l IH]; simpl; [reflexivity|].
  now rewrite Ascii.eqb_refl, IH.
Qed.

Lemma dropPrefix_app (l s : gostring) : dropPrefix l (l ++ s) = Some s.
Proof.
  induction l as [|x l IH]; simpl; [reflexivity|].
  now rewrite Ascii.eqb_refl.
Qed.

Lemma dropPrefix_Some (l s t : gostring) : dropPrefix l s = Some t -> s = l ++ t.
Proof.
  revert s; induction l as [|x l IH]; intros s; simpl.
  - now intros [= ->].
  - destruct s as [|y s]; [discriminate|].
    destruct (Ascii.eqb x y) eqn:E; [|discriminate].
    apply Ascii.eqb_eq in E. subst y. intros H. f_equal. now apply IH.
Qed.

Lemma HasPrefix_dropPrefix (l s : gostring) :
  HasPrefix s l = false -> dropPrefix l s = None.
Proof.
  revert s; induction l as [|x l IH]; intros s; simpl; [discriminate|].
  destruct s as [|y s]; [reflexivity|].
  destruct (Ascii.eqb x y); simpl; [apply IH|reflexivity].
Qed.

Lemma Contains_prefix (s l : gostring) : HasPrefix s l = true -> Contains s l = true.
Proof.
  destruct s; simpl; [tauto|]. intros ->. reflexivity.
Qed.

Lemma Contains_app_r (p q l : gostring) :
  Contains q l = true -> Contains (p ++ q) l = true.
Proof.
  induction p as [|c p IH]; simpl; [tauto|].
  intros H. rewrite (IH H). apply orb_true_r.
Qed.

Lemma Contains_suffix_false (p q l : gostring) :
  Contains (p ++ q) l = false -> Contains q l = false.
Proof.
  intros H. destruct (Contains q l) eqn:E; [|reflexivity].
  now rewrite (Contains_app_r p _ _ E) in H.
Qed.

Lemma startsNonSpace_rev_app (p q : gostring) :
  q <> [] -> startsNonSpace (rev (p ++ q)) = startsNonSpace (rev q).
Proof.
  intros Hq. rewrite rev_app_distr.
  destruct (rev q) as [|c r] eqn:E; [|reflexivity].
  apply (f_equal (@rev ascii)) in E. rewrite rev_involutive in E. now subst q.
Qed.

(** [\s*] at a character that is no white space takes nothing. *)
Lemma wsStar_nonspace k (s : gostring) :
  startsNonSpace s = true -> wsStar k s = k s.
Proof.
  destruct s as [|c s]; simpl; [discriminate|].
  now destruct (isReSpace c).
Qed.

Lemma wsStar_space k (c : ascii) (s : gostring) m :
  isReSpace c = true -> wsStar k s = Some m -> wsStar k (c :: s) = Some m.
Proof. intros Hc H. simpl. now rewrite Hc, H. Qed.

(** What [\s*] leaves to the rest of the pattern is a suffix of the text. *)
Lemma wsStar_sound k (s : gostring) m :
  wsStar k s = Some m -> exists w t, s = w ++ t /\ k t = Some m.
Proof.
  induction s as [|c s IH]; simpl.
  - intros H. now exists [], [].
  - destruct (isReSpace c).
    + destruct (wsStar k s) as [m'|] eqn:E.
      * intros [= <-]. destruct (IH eq_refl) as (w & t & -> & H).
        now exists (c :: w), t.
      * intros H. now exists [], (c :: s).
    + intros H. now exists [], (c :: s).
Qed.

(** [\s*] before a literal that does not start with white space: the
    literal stands right after the white space. *)
Lemma wsStar_literal l k (s : gostring) m :
  startsNonSpace l = true ->
  wsStar (literal l k) s = Some m -> HasPrefix (skipSpace s) l = true.
Proof.
  intros Hl. induction s as [|c s IH]; simpl.
  - unfold literal. destruct l; [discriminate|]. simpl. discriminate.
  - destruct (isReSpace c) eqn:Hc.
    + destruct (wsStar (literal l k) s) as [m'|] eqn:E.
      * intros H. now apply IH.
      * unfold literal. destruct l as [|x l]; [discriminate|]. simpl.
        destruct (Ascii.eqb x c) eqn:Ex; [|discriminate].
        apply Ascii.eqb_eq in Ex. subst x. simpl in Hl. now rewrite Hc in Hl.
    + unfold literal. destruct (dropPrefix l (c :: s)) as [t|] eqn:E; [|discriminate].
      intros _. apply dropPrefix_Some in E. rewrite E. apply HasPrefix_app.
Qed.

(** [\s*$] matches white space only. *)
Lemma wsStar_atEnd (s : gostring) m :
  wsStar atEnd s = Some m -> forallb isReSpace s = true.
Proof.
  induction s as [|c s IH]; simpl; [reflexivity|].
  destruct (isReSpace c); simpl; [|discriminate].
  destruct (wsStar atEnd s); [intros H; now apply IH|discriminate].
Qed.

(** What [(.+?)] leaves to the rest of the pattern is a suffix too. *)
Lemma grpLazy_sound k (acc s : gostring) m :
  grpLazy k acc s = Some m -> exists g t m', s = g ++ t /\ k t = Some m'.
Proof.
  revert acc; induction s as [|c s IH]; intros acc; simpl; [discriminate|].
  destruct (isDot c); [|discriminate].
  destruct (k s) as [m'|] eqn:E.
  - intros _. now exists [c], s, m'.
  - intros H. destruct (IH _ H) as (g & t & m' & -> & Hk).
    now exists (c :: g), t, m'.
Qed.

(** The lazy group takes [a] when the rest of the pattern matches after
    [a] and after no shorter text. *)
Lemma grpLazy_first k (a s acc : gostring) m :
  a <> [] ->
  noNewline a = true ->
  (forall p q, a = p ++ q -> p <> [] -> q <> [] -> k (q ++ s) = None) ->
  k s = Some m ->
  grpLazy k acc (a ++ s) = Some ((rev acc ++ a) :: m).
Proof.
  revert acc; induction a as [|c a IH]; intros acc Ha Hn Hshort Hk;
    [congruence|].
  simpl in Hn. apply andb_true_iff in Hn as [Hc Hn].
  simpl. rewrite Hc. destruct a as [|c' a].
  - simpl. rewrite Hk. reflexivity.
  - rewrite (Hshort [c] (c' :: a) eq_refl) by discriminate.
    rewrite IH; try assumption; try discriminate.
    + simpl. now rewrite <- app_assoc.
    + intros p q E Hp Hq. apply (Hshort (c :: p) q); [|discriminate|assumption].
      simpl. now rewrite E.
Qed.

(** A pattern with a literal matches only a text that holds it. *)
Lemma rmatch_literal (r : list item) (l s : gostring) m :
  In (Lit l) r -> rmatch r s = Some m -> Contains s l = true.
Proof.
  revert s m; induction r as [|i r IH]; intros s m; simpl; [tauto|].
  intros [->|Hin].
  - unfold literal. destruct (dropPrefix l s) as [t|] eqn:E; [|discriminate].
    intros _. apply dropPrefix_Some in E. subst s.
    apply Contains_prefix, HasPrefix_app.
  - destruct i as [|l'|].
    + intros H. apply wsStar_sound in H as (w & t & -> & H).
      apply Contains_app_r. now apply (IH _ _ Hin H).
    + unfold literal. destruct (dropPrefix l' s) as [t|] eqn:E; [|discriminate].
      intros H. apply dropPrefix_Some in E. subst s.
      apply Contains_app_r. now apply (IH _ _ Hin H).
    + intros H. apply grpLazy_sound in H as (g & t & m' & -> & H).
      apply Contains_app_r. now apply (IH _ _ Hin H).
Qed.

Lemma isSegment_parts (a : gostring) :
  isSegment a = true ->
  a <> [] /\ noNewline a = true /\ startsNonSpace a = true
  /\ startsNonSpace (rev a) = true.
Proof.
  unfold isSegment. rewrite !andb_true_iff. intros [[Hn Hs] He].
  repeat split; try assumption. intros ->. discriminate.
Qed.

Lemma startsNonSpace_app (a s : gostring) :
  startsNonSpace a = true -> startsNonSpace (a ++ s) = true.
Proof. destruct a; simpl; [discriminate|tauto]. Qed.

Lemma allSpace_not_segment_end (q : gostring) :
  q <> [] -> forallb isReSpace q = true -> startsNonSpace (rev q) = false.
Proof.
  intros Hq H. destruct (rev q) as [|c r] eqn:E; [reflexivity|].
  simpl. assert (Hin : In c q) by (apply in_rev; rewrite E; now left).
  rewrite forallb_forall in H. now rewrite (H c Hin).
Qed.

(** An operator [xx] does not follow, white space apart, a text that holds
    none, does not end in white space and is followed by a space. *)
Lemma op_not_after (x : ascii) (q rest : gostring) :
  isReSpace x = false ->
  q <> [] ->
  startsNonSpace (rev q) = true ->
  Contains q [x; x] = false ->
  HasPrefix (skipSpace (q ++ " "%char :: rest)) [x; x] = false.
Proof.
  intros Hx. induction q as [|c q IH]; intros Hq He Hc; [congruence|].
  destruct q as [|c' q].
  - simpl in He. apply negb_true_iff in He. simpl. rewrite He. simpl.
    destruct (Ascii.eqb x c); [|reflexivity]. simpl.
    destruct (Ascii.eqb x " ") eqn:E; [|reflexivity].
    apply Ascii.eqb_eq in E. subst x. discriminate.
  - simpl in Hc. apply orb_false_iff in Hc as [Hp Hc].
    change ((c :: c' :: q) ++ " "%char :: rest)
      with (c :: (c' :: q) ++ " "%char :: rest).
    cbn [skipSpace]. destruct (isReSpace c).
    + apply IH; [discriminate| |exact Hc].
      rewrite <- He. symmetry.
      apply (startsNonSpace_rev_app [c]). discriminate.
    + simpl. simpl in Hp. exact Hp.
Qed.

(** The lazy group before an operator [xx] takes the segment [a]. *)
Lemma grpLazy_operator (x : ascii) k (a rest : gostring) m :
  isReSpace x = false ->
  isSegment a = true ->
  Contains a [x; x] = false ->
  startsNonSpace rest = true ->
  k rest = Some m ->
  grpLazy (wsStar (literal [x; x] (wsStar k))) []
    (a ++ " "%char :: x :: x :: " "%char :: rest)
  = Some (a :: m).
Proof.
  intros Hx Ha Hc Hr Hk.
  apply isSegment_parts in Ha as (Hne & Hn & _ & He).
  change (a :: m) with ((rev [] ++ a) :: m).
  apply grpLazy_first; try assumption.
  - intros p q E Hp Hq.
    destruct (wsStar (literal [x; x] (wsStar k))
                (q ++ " "%char :: x :: x :: " "%char :: rest)) as [m'|] eqn:Em;
      [|reflexivity].
    apply wsStar_literal in Em; [|simpl; now rewrite Hx].
    rewrite op_not_after in Em; try assumption; try discriminate.
    + rewrite <- He, E. symmetry. now apply startsNonSpace_rev_app.
    + apply (Contains_suffix_false p). now rewrite <- E.
  - apply wsStar_space; [reflexivity|].
    rewrite wsStar_nonspace by (simpl; now rewrite Hx).
    unfold literal. simpl. rewrite !Ascii.eqb_refl.
    apply wsStar_space; [reflexivity|].
    now rewrite wsStar_nonspace.
Qed.

(** The last lazy group takes the segment that ends the text. *)
Lemma grpLazy_last (a : gostring) :
  isSegment a = true -> grpLazy (wsStar atEnd) [] a = Some [a].
Proof.
  intros Ha. apply isSegment_parts in Ha as (Hne & Hn & _ & He).
  rewrite <- (app_nil_r a) at 1.
  change [a] with ((rev [] ++ a) :: []).
  apply grpLazy_first; try assumption; [|reflexivity].
  intros p q E Hp Hq. rewrite app_nil_r.
  destruct (wsStar atEnd q) as [m'|] eqn:Em; [|reflexivity].
  apply wsStar_atEnd in Em. apply (allSpace_not_segment_end Hq) in Em.
  rewrite <- (startsNonSpace_rev_app p Hq), <- E, He in Em. discriminate.
Qed.


Lemma regexCmdAnd_match (a b : gostring) :
  isSegment a = true -> isSegment b = true ->
  Contains a (str "&&") = false ->
  FindStringSubmatch regexCmdAnd (a ++ str " && " ++ b)
  = Some [a ++ str " && " ++ b; a; b].
Proof.
  intros Ha Hb Haa. unfold FindStringSubmatch.
  destruct (isSegment_parts _ Ha) as (_ & _ & Has & _).
  destruct (isSegment_parts _ Hb) as (_ & _ & Hbs & _).
  unfold regexCmdAnd. cbn [rmatch].
  rewrite wsStar_nonspace by now apply startsNonSpace_app.
  change (str " && " ++ b)
    with (" "%char :: "&"%char :: "&"%char :: " "%char :: b).
  rewrite (@grpLazy_operator "&" _ a _ [b]); try easy.
  now apply grpLazy_last.
Qed.


(** The first [&&] of a text that starts with a segment without one and
    a space lies after that space. *)
Lemma first_and_after (a R P Q : gostring) :
  Contains a (str "&&") = false ->
  a ++ " "%char :: R = P ++ str "&&" ++ Q ->
  exists P', R = P' ++ str "&&" ++ Q.
Proof.
  revert P; induction a as [|x a IH]; intros P Hc E.
  - destruct P as [|c P]; [discriminate E|].
    injection E as _ E. now exists P.
  - cbn [Contains] in Hc. apply orb_false_iff in Hc as [Hp Hc].
    destruct P as [|c P].
    + injection E as -> E. destruct a as [|y a]; [discriminate E|].
      injection E as -> _. discriminate Hp.
    + injection E as _ E. now apply (IH P).
Qed.

(** A match of [regexCmdAndOr] has a [||] after a [&&]. *)
Lemma regexCmdAndOr_operators (s : gostring) m :
  rmatch regexCmdAndOr s = Some m ->
  exists P Q, s = P ++ str "&&" ++ Q /\ Contains Q (str "||") = true.
Proof.
  unfold regexCmdAndOr. cbn [rmatch]. intros H.
  apply wsStar_sound in H as (w & t & -> & H).
  apply grpLazy_sound in H as (g & t' & m' & -> & H).
  apply wsStar_sound in H as (w2 & t2 & -> & H).
  unfold literal in H.
  destruct (dropPrefix (str "&&") t2) as [Q|] eqn:E; [|discriminate].
  apply dropPrefix_Some in E. subst t2.
  exists (w ++ g ++ w2), Q. split; [now rewrite <- !app_assoc|].
  apply (@rmatch_literal [WS; Grp; WS; Lit (str "||"); WS; Grp; WS]
           (str "||") Q m'); [simpl; tauto|exact H].
Qed.

(** [regexCmdAndOr] does not match a line whose first [&&] has no [||]
    after it. *)
Lemma regexCmdAndOr_none (a b : gostring) :
  Contains a (str "&&") = false ->
  Contains b (str "||") = false ->
  FindStringSubmatch regexCmdAndOr (a ++ str " && " ++ b) = None.
Proof.
  intros Ha Hb. unfold FindStringSubmatch.
  destruct (rmatch regexCmdAndOr (a ++ str " && " ++ b)) as [m|] eqn:E;
    [|reflexivity].
  apply regexCmdAndOr_operators in E as (P & Q & Hs & Hq).
  change (a ++ str " && " ++ b) with (a ++ " "%char :: (str "&& " ++ b)) in Hs.
  apply first_and_after in Hs as [P' Hs]; [|assumption].
  assert (Hc : Contains (str "&& " ++ b) (str "||") = true).
  { rewrite Hs. apply Contains_app_r, Contains_app_r. exact Hq. }
  change (Contains (str "&& " ++ b) (str "||"))
    with (Contains b (str "||")) in Hc.
  congruence.
Qed.

(** A text without the operator is no match of a pattern that has it. *)
Lemma FindStringSubmatch_none (re : list item) (l s : gostring) :
  In (Lit l) re -> Contains s l = false -> FindStringSubmatch re s = None.
Proof.
  intros Hin Hc. unfold FindStringSubmatch.
  destruct (rmatch re s) as [m|] eqn:E; [|reflexivity].
  apply (@rmatch_literal re l s m Hin) in E. congruence.
Qed.

(** ** The parser *)

Section ParserFacts.

Variables Operation OptionType : Type.
Variable GetAcceptedOpts : Operation -> list OptionType.
Variable GetParam : OptionType -> gostring.
Variable ParseS3Url : gostring -> result S3Url.
Variable Format : S3Url -> gostring.
Variable wildChars : gostring.
Variable Stat : gostring -> StatResult.
Variable MatchErr : gostring -> option error.
Variable commands : list (commandMap Operation OptionType).

Local Abbreviation parseSingle :=
  (parseSingleJob GetAcceptedOpts GetParam ParseS3Url Format wildChars Stat
     MatchErr commands).
Local Abbreviation parse :=
  (ParseJob GetAcceptedOpts GetParam ParseS3Url Format wildChars Stat
     MatchErr commands).

Lemma HasPrefix_hash (c : ascii) (s : gostring) :
  HasPrefix (c :: s) (str "#") = Ascii.eqb c "#".
Proof.
  change (HasPrefix (c :: s) (str "#")) with (Ascii.eqb "#" c && true).
  rewrite andb_true_r. apply Ascii.eqb_sym.
Qed.


Lemma parseSingleJob_comment (seg : gostring) :
  seg = [] \/ HasPrefix seg (str "#") = true ->
  parseSingle seg = Returns None.
Proof.
  intros [->|H]; [reflexivity|].
  destruct seg as [|c0 seg]; [reflexivity|].
  rewrite HasPrefix_hash in H.
  unfold parseSingleJob. now rewrite H.
Qed.


Lemma ParseJob_And (line a b : gostring) :
  isSegment a = true -> isSegment b = true ->
  Contains a (str "&&") = false ->
  Contains b (str "||") = false ->
  normalize line = a ++ str " && " ++ b ->
  parse line
  = andThen (parseSingle a) (fun j =>
    andThen (parseSingle b) (fun s => link j s None)).
Proof.
  intros Ha Hb Haa Hor Hn. unfold ParseJob. rewrite Hn in *.
  rewrite regexCmdAndOr_none by assumption.
  rewrite regexCmdAnd_match by assumption. reflexivity.
Qed.


Lemma ParseJob_single (line : gostring) :
  Contains (normalize line) (str "&&") = false ->
  Contains (normalize line) (str "||") = false ->
  parse line = andThen (parseSingle (normalize line)) (fun j => link j None None).
Proof.
  intros Hand Hor. unfold ParseJob.
  rewrite (@FindStringSubmatch_none regexCmdAndOr (str "&&"));
    [|simpl; tauto|assumption].
  rewrite (@FindStringSubmatch_none regexCmdAnd (str "&&"));
    [|simpl; tauto|assumption].
  rewrite (@FindStringSubmatch_none regexCmdOr (str "||"));
    [|simpl; tauto|assumption].
  reflexivity.
Qed.


Lemma filter_existsb_true (A : Type) (f : A -> bool) (l : list A) :
  existsb f l = true -> filter f l <> [].
Proof.
  induction l as [|x l IH]; simpl; [discriminate|].
  destruct (f x); simpl; [discriminate|exact IH].
Qed.

Lemma filter_existsb_false (A : Type) (f : A -> bool) (l : list A) :
  existsb f l = false -> filter f l = [].
Proof.
  induction l as [|x l IH]; simpl; [reflexivity|].
  destruct (f x); simpl; [discriminate|exact IH].
Qed.

Local Abbreviation optionsOf accepted :=
  (flat_map (fun q => filter (fun o => gostring_eqb q (GetParam o)) accepted)).

(** The option loop stops at the first token that is no accepted option. *)
Lemma scanOpts_boundary (accepted : list OptionType) (pre : list gostring)
    (p : gostring) (post : list gostring) (k : nat) (jopts : list OptionType) :
  forallb (isAcceptedFlag GetParam accepted) pre = true ->
  isAcceptedFlag GetParam accepted p = false ->
  p <> [] ->
  scanOpts GetParam accepted k (pre ++ p :: post) jopts
  = Some (k + length pre, jopts ++ optionsOf accepted pre).
Proof.
  revert k jopts; induction pre as [|q pre IH]; intros k jopts Hpre Hp Hne.
  - cbn [app scanOpts length flat_map]. rewrite Nat.add_0_r, app_nil_r.
    destruct p as [|c0 p]; [congruence|].
    unfold isAcceptedFlag in Hp.
    destruct (Ascii.eqb c0 "-"); cbn [negb andb] in *; [|reflexivity].
    now rewrite (filter_existsb_false _ _ Hp).
  - cbn [forallb] in Hpre. apply andb_true_iff in Hpre as [Hq Hpre].
    cbn [app scanOpts]. destruct q as [|c0 q]; [discriminate|].
    unfold isAcceptedFlag in Hq. apply andb_true_iff in Hq as [Hc Hq].
    rewrite Hc. cbn [negb].
    apply filter_existsb_true in Hq.
    destruct (filter (fun o => gostring_eqb (c0 :: q) (GetParam o)) accepted)
      as [|h hits] eqn:E; [congruence|].
    rewrite IH by assumption. cbn [length flat_map]. rewrite E.
    rewrite <- app_assoc. f_equal. f_equal. lia.
Qed.

(** When every token is an accepted option the loop runs to its end, and
    [fileArgsStartPosition] is still 1. *)
Lemma scanOpts_all_accepted (accepted : list OptionType) (pre : list gostring)
    (k : nat) (jopts : list OptionType) :
  forallb (isAcceptedFlag GetParam accepted) pre = true ->
  scanOpts GetParam accepted k pre jopts
  = Some (1, jopts ++ optionsOf accepted pre).
Proof.
  revert k jopts; induction pre as [|q pre IH]; intros k jopts Hpre.
  - cbn. now rewrite app_nil_r.
  - cbn [forallb] in Hpre. apply andb_true_iff in Hpre as [Hq Hpre].
    cbn [scanOpts]. destruct q as [|c0 q]; [discriminate|].
    unfold isAcceptedFlag in Hq. apply andb_true_iff in Hq as [Hc Hq].
    rewrite Hc. cbn [negb].
    apply filter_existsb_true in Hq.
    destruct (filter (fun o => gostring_eqb (c0 :: q) (GetParam o)) accepted)
      as [|h hits] eqn:E; [congruence|].
    rewrite IH by assumption. cbn [flat_map]. rewrite E.
    now rewrite <- app_assoc.
Qed.

(** The arity check of an entry, given what the option loop found. *)
Lemma tryCommand_arity (jobdesc : gostring) (parts : list gostring)
    (c : commandMap Operation OptionType) (start : nat)
    (jopts : list OptionType) :
  scanOpts GetParam (GetAcceptedOpts (operation c)) 1 (tl parts) (opts c)
  = Some (start, jopts) ->
  start <= length parts ->
  (tryCommand GetAcceptedOpts GetParam ParseS3Url Format wildChars Stat
     MatchErr jobdesc parts c = CandArity
   <-> length parts - start < length (params c)
       \/ (isVariadic (params c) = false
           /\ length (params c) < length parts - start)).
Proof.
  intros Hs Hle. unfold tryCommand. rewrite Hs.
  destruct (isVariadic (params c)) eqn:Hv.
  - destruct (Z.of_nat (length parts) - Z.of_nat start
              <? Z.of_nat (length (params c)))%Z eqn:E1; cbn [orb andb].
    + apply Z.ltb_lt in E1. split; [intros _; left; lia|reflexivity].
    + apply Z.ltb_ge in E1.
      replace (-1 <? -1)%Z with false by reflexivity. cbn [andb].
      split.
      * destruct (checkParams _ _ _ _ _ _ _ _ _ _) as [st|]; [|discriminate].
        destruct (parseArgErr _); discriminate.
      * intros [H|[H _]]; [lia|discriminate].
  - destruct (Z.of_nat (length parts) - Z.of_nat start
              <? Z.of_nat (length (params c)))%Z eqn:E1; cbn [orb andb].
    + apply Z.ltb_lt in E1. split; [intros _; left; lia|reflexivity].
    + apply Z.ltb_ge in E1.
      replace (-1 <? Z.of_nat (length (params c)))%Z with true
        by (symmetry; apply Z.ltb_lt; lia).
      cbn [andb].
      destruct (Z.of_nat (length (params c))
                <? Z.of_nat (length parts) - Z.of_nat start)%Z eqn:E2.
      * apply Z.ltb_lt in E2. split; [intros _; right; split; [reflexivity|lia]|reflexivity].
      * apply Z.ltb_ge in E2. split.
        -- rewrite Z.eqb_refl. cbn [negb].
           destruct (checkParams _ _ _ _ _ _ _ _ _ _) as [st|]; [|discriminate].
           destruct (parseArgErr _); discriminate.
        -- intros [H|[_ H]]; lia.
Qed.


(** X2.  In a token list where some token after the keyword is no accepted
    option, the positional arguments start at the first such token, and
    the entry is passed over for arity exactly when the tokens from there
    on are fewer than the declared types or, the last type not being
    [UncheckedOneOrMore], more. *)
Theorem option_boundary_and_arity (jobdesc kw : gostring)
    (pre : list gostring) (p : gostring) (post : list gostring)
    (c : commandMap Operation OptionType) :
  forallb (isAcceptedFlag GetParam (GetAcceptedOpts (operation c))) pre = true ->
  isAcceptedFlag GetParam (GetAcceptedOpts (operation c)) p = false ->
  p <> [] ->
  scanOpts GetParam (GetAcceptedOpts (operation c)) 1 (pre ++ p :: post) (opts c)
  = Some (1 + length pre,
          opts c ++ optionsOf (GetAcceptedOpts (operation c)) pre)
  /\ (tryCommand GetAcceptedOpts GetParam ParseS3Url Format wildChars Stat
        MatchErr jobdesc (kw :: pre ++ p :: post) c = CandArity
      <-> length (p :: post) < length (params c)
          \/ (isVariadic (params c) = false
              /\ length (params c) < length (p :: post))).
Proof.
  intros Hpre Hp Hne.
  pose proof (scanOpts_boundary _ pre post 1 (opts c) Hpre Hp Hne) as Hs.
  split; [exact Hs|].
  rewrite (@tryCommand_arity jobdesc (kw :: pre ++ p :: post) c _ _ Hs).
  - cbn [length]. rewrite length_app. cbn [length].
    replace (S (length pre + S (length post)) - (1 + length pre))
      with (S (length post)) by lia.
    reflexivity.
  - cbn [length]. rewrite length_app. cbn [length]. lia.
Qed.

(** The first argument loop, when it ends without error. *)
Lemma checkParams_done (parts : list gostring) (start : nat)
    (ts : list ParamType) (i : nat) (st st' : argState) :
  checkParams ParseS3Url Format wildChars Stat MatchErr parts start i ts st
  = Some st' ->
  parseArgErr st' = None ->
  ts <> [] ->
  maxI st' = i + length ts - 1
  /\ (exists pre, ts = pre ++ [lastType st'])
  /\ length (stArgs st') = length (stArgs st) + length ts.
Proof.
  revert i st; induction ts as [|t ts IH]; intros i st H He Hne; [congruence|].
  cbn [checkParams] in H.
  destruct (nth_error parts (start + i)) as [p|]; [|discriminate].
  destruct (parseArgumentByType ParseS3Url Format wildChars Stat MatchErr p t
              (fnObj st)) as [a|e].
  - destruct ts as [|t' ts].
    + cbn [checkParams] in H. injection H as <-. cbn.
      split; [lia|]. split; [now exists []|].
      rewrite length_app. cbn. lia.
    + apply IH in H; [|assumption|discriminate].
      destruct H as (Hm & (pre & Hpre) & Hl).
      split; [cbn [length] in *; lia|].
      split; [exists (t :: pre); now rewrite Hpre|].
      rewrite Hl. cbn [stArgs length]. rewrite length_app. cbn. lia.
  - injection H as <-. discriminate.
Qed.

(** The second argument loop with the pass-through type: the tokens after
    index [maxI + 1] of [parts] are appended as they are. *)
Lemma checkRest_passthrough (ps : list gostring) (i : nat) (st : argState) :
  lastType st = UncheckedOneOrMore ->
  parseArgErr st = None ->
  checkRest ParseS3Url Format wildChars Stat MatchErr i ps st
  = mkArgState
      (stArgs st ++ map (fun p => mkArg p None) (skipn (maxI st + 2 - i) ps))
      (fnObj st) None (maxI st) UncheckedOneOrMore.
Proof.
  revert i st; induction ps as [|p ps IH]; intros i st Ht He.
  - cbn. rewrite skipn_nil, app_nil_r. destruct st; cbn in *. congruence.
  - cbn [checkRest]. destruct (i <=? maxI st + 1) eqn:E.
    + apply Nat.leb_le in E. rewrite IH by assumption.
      replace (maxI st + 2 - i) with (S (maxI st + 2 - S i)) by lia.
      reflexivity.
    + apply Nat.leb_gt in E. rewrite Ht.
      change (parseArgumentByType ParseS3Url Format wildChars Stat MatchErr p
                UncheckedOneOrMore (fnObj st)) with (Ok (mkArg p None)).
      cbv beta iota. rewrite IH by reflexivity. cbn [stArgs fnObj maxI].
      replace (maxI st + 2 - i) with 0 by lia.
      replace (maxI st + 2 - S i) with 0 by lia.
      cbn [skipn map]. now rewrite <- app_assoc.
Qed.

Lemma isVariadic_last (pre : list ParamType) (t : ParamType) :
  isVariadic (pre ++ [t]) = ParamType_eqb t UncheckedOneOrMore.
Proof. unfold isVariadic. now rewrite rev_app_distr. Qed.

Lemma ParamType_eqb_eq (a b : ParamType) : ParamType_eqb a b = true -> a = b.
Proof. destruct a, b; simpl; congruence. Qed.

(** X3.  For an entry whose signature ends in [UncheckedOneOrMore], once
    the arity check is passed and the declared positions are validated,
    the second loop appends the tokens of [parts] from index
    [len(c.params) + 1] on, each once, in order and as they are, wherever
    the positional arguments start. *)
Theorem variadic_rest_from_params_length (jobdesc : gostring)
    (parts : list gostring) (c : commandMap Operation OptionType)
    (start : nat) (jopts : list OptionType) (st : argState) :
  scanOpts GetParam (GetAcceptedOpts (operation c)) 1 (tl parts) (opts c)
  = Some (start, jopts) ->
  isVariadic (params c) = true ->
  start + length (params c) <= length parts ->
  checkParams ParseS3Url Format wildChars Stat MatchErr parts start 0 (params c)
    (mkArgState [] None None start UncheckedOneOrMore) = Some st ->
  parseArgErr st = None ->
  tryCommand GetAcceptedOpts GetParam ParseS3Url Format wildChars Stat
    MatchErr jobdesc parts c
  = CandMatch
      (mkJob jobdesc (keyword c) (operation c)
         (stArgs st
          ++ map (fun p => mkArg p None) (skipn (length (params c) + 1) parts))
         jopts None None 0 0)
  /\ length (stArgs st) = length (params c).
Proof.
  intros Hs Hv Hle Hc He.
  assert (Hne : params c <> []).
  { intros E. rewrite E in Hv. discriminate. }
  destruct (checkParams_done _ _ _ _ Hc He Hne) as (Hm & (pre & Hpre) & Hl).
  split; [|exact Hl].
  unfold tryCommand. rewrite Hs, Hv.
  replace (Z.of_nat (length parts) - Z.of_nat start
           <? Z.of_nat (length (params c)))%Z with false
    by (symmetry; apply Z.ltb_ge; lia).
  replace (-1 <? -1)%Z with false by reflexivity. cbn [orb andb].
  rewrite Hc, He.
  replace (Z.of_nat (length (params c)) =? -1)%Z with false
    by (symmetry; apply Z.eqb_neq; lia).
  cbn [negb].
  rewrite Hpre, isVariadic_last in Hv. apply ParamType_eqb_eq in Hv.
  rewrite checkRest_passthrough by assumption.
  cbn [parseArgErr stArgs]. rewrite Hm.
  replace (0 + length (params c) - 1 + 2 - 0) with (length (params c) + 1)
    by (destruct (params c); [congruence|cbn [length]; lia]).
  reflexivity.
Qed.

(** X1.  A line whose normalized text is empty, or starts with [#] and
    holds no operator, gives a [nil] Job and a [nil] error. *)
Theorem ParseJob_blank_or_comment (line : gostring) :
  normalize line = []
  \/ (HasPrefix (normalize line) (str "#") = true
      /\ Contains (normalize line) (str "&&") = false
      /\ Contains (normalize line) (str "||") = false) ->
  parse line = Returns None.
Proof.
  intros [H|(Hc & Hand & Hor)].
  - unfold ParseJob. rewrite H. reflexivity.
  - rewrite ParseJob_single by assumption.
    rewrite parseSingleJob_comment by (right; assumption). reflexivity.
Qed.


(** C9, at a comment line with operators in it: the line is matched
    against [regexCmdAnd] before the comment is seen; the first segment
    gives [nil, nil] and the second is parsed and refused. *)
Theorem ParseJob_comment_with_operators :
  parse (str "#a && b && c") = Fails nestedError.
Proof.
  rewrite (@ParseJob_And _ (str "#a") (str "b && c")); reflexivity.
Qed.

End ParserFacts.

(** ** The driver of a batch *)

Section SelectFacts.

Variables URL err : Type.
Variable IsCancelation : option err -> bool.
Variable glacierError : SelectCmd.Object URL err -> err.
Variable delivered : list URL -> list err.
Variable asMultierror : err -> option (list err).

Local Abbreviation Run :=
  (SelectCmd.Run IsCancelation glacierError delivered asMultierror).
Local Abbreviation entries :=
  (fun e : err => match asMultierror e with Some sub => sub | None => [e] end).
Local Abbreviation kept := (SelectCmd.kept IsCancelation).
Local Abbreviation report := (SelectCmd.report IsCancelation glacierError).
Local Abbreviation step := (SelectCmd.step IsCancelation glacierError).

Lemma step_spec (st : SelectCmd.loopState URL err) (o : SelectCmd.Object URL err) :
  step st o
  = SelectCmd.mkLoop (SelectCmd.printed st ++ report o)
      (SelectCmd.submitted st ++ (if kept o then [SelectCmd.objURL o] else [])).
Proof.
  unfold SelectCmd.step, SelectCmd.report, SelectCmd.kept.
  destruct st as [p s]. simpl.
  destruct (SelectCmd.objIsDir o); simpl; [now rewrite !app_nil_r|].
  destruct (IsCancelation (SelectCmd.objErr o)); simpl;
    [now rewrite !app_nil_r|].
  destruct (SelectCmd.objErr o); simpl; [now rewrite app_nil_r|].
  destruct (SelectCmd.objIsGlacier o); simpl; now rewrite app_nil_r.
Qed.

Lemma loop_from (objch : list (SelectCmd.Object URL err))
    (st : SelectCmd.loopState URL err) :
  fold_left step objch st
  = SelectCmd.mkLoop (SelectCmd.printed st ++ flat_map report objch)
      (SelectCmd.submitted st
       ++ map (@SelectCmd.objURL URL err) (filter kept objch)).
Proof.
  revert st; induction objch as [|o objch IH]; intros st.
  - simpl. rewrite !app_nil_r. now destruct st.
  - cbn [fold_left]. rewrite IH, step_spec. cbn [SelectCmd.printed SelectCmd.submitted].
    rewrite <- !app_assoc. cbn [flat_map filter].
    destruct (kept o); reflexivity.
Qed.

Lemma collect_from (errs l : list err) :
  fold_left (SelectCmd.Append asMultierror) errs (SelectCmd.Aggregate l)
  = SelectCmd.Aggregate (l ++ flat_map entries errs).
Proof.
  revert l; induction errs as [|e errs IH]; intros l; simpl.
  - now rewrite app_nil_r.
  - rewrite IH, <- app_assoc. reflexivity.
Qed.

Lemma collect_spec (errs : list err) :
  SelectCmd.collect asMultierror errs
  = match errs with
    | [] => SelectCmd.Nil
    | _ :: _ => SelectCmd.Aggregate (flat_map entries errs)
    end.
Proof.
  destruct errs as [|e errs]; [reflexivity|].
  unfold SelectCmd.collect. cbn [fold_left SelectCmd.Append].
  rewrite collect_from. reflexivity.
Qed.

Lemma Run_loop (objch : list (SelectCmd.Object URL err)) :
  SelectCmd.tasks (Run (inl objch))
  = map (@SelectCmd.objURL URL err) (filter kept objch)
  /\ SelectCmd.mainPrinted (Run (inl objch)) = flat_map report objch.
Proof.
  unfold SelectCmd.Run, SelectCmd.loop. rewrite loop_from. now split.
Qed.

Lemma filter_kept_twice (objch : list (SelectCmd.Object URL err)) :
  filter kept (filter kept objch) = filter kept objch.
Proof.
  induction objch as [|o objch IH]; [reflexivity|].
  cbn [filter]. destruct (kept o) eqn:E; [|exact IH].
  cbn [filter]. now rewrite E, IH.
Qed.

Lemma report_In (o : SelectCmd.Object URL err)
    (objch : list (SelectCmd.Object URL err)) (e : err) :
  In o objch -> In e (report o) -> In e (flat_map report objch).
Proof.
  intros Ho He. apply in_flat_map. now exists o.
Qed.

(** C2.  Where [Run] departs from the result contract: an object of the
    channel that carries an error which is no cancellation, or that is on
    Glacier storage, has its error printed by the main loop, gets no
    task, and leaves the returned value as it is without the object.  So
    a run whose Waiter delivers no error returns [nil] however many
    objects failed in this way. *)
Theorem Run_reported_objects_return_nil
    (objch : list (SelectCmd.Object URL err)) (o : SelectCmd.Object URL err) :
  In o objch ->
  SelectCmd.objIsDir o = false ->
  IsCancelation (SelectCmd.objErr o) = false ->
  (exists e, SelectCmd.objErr o = Some e) \/ SelectCmd.objIsGlacier o = true ->
  (forall e, SelectCmd.objErr o = Some e ->
             In e (SelectCmd.mainPrinted (Run (inl objch))))
  /\ (SelectCmd.objErr o = None ->
      In (glacierError o) (SelectCmd.mainPrinted (Run (inl objch))))
  /\ ~ In o (filter kept objch)
  /\ SelectCmd.value (Run (inl objch))
     = SelectCmd.value (Run (inl (filter kept objch)))
  /\ (delivered (SelectCmd.tasks (Run (inl objch))) = [] ->
      SelectCmd.value (Run (inl objch)) = SelectCmd.Nil).
Proof.
  intros Hin Hd Hc Hf.
  destruct (Run_loop objch) as [HT HP].
  split; [|split; [|split; [|split]]].
  - intros e He. rewrite HP.
    apply (report_In o objch e Hin). unfold SelectCmd.report.
    rewrite Hd, He in *. rewrite Hc. now left.
  - intros He. destruct Hf as [[e H]|Hg]; [congruence|]. rewrite HP.
    apply (report_In o objch _ Hin). unfold SelectCmd.report.
    rewrite Hd, He in *. rewrite Hc, Hg. now left.
  - intros H. apply filter_In in H as [_ H]. revert H.
    unfold SelectCmd.kept. rewrite Hd, Hc. cbn [negb andb].
    destruct (SelectCmd.objErr o) as [e|]; [discriminate|].
    destruct Hf as [[e H]|Hg]; [discriminate|]. now rewrite Hg.
  - unfold SelectCmd.Run, SelectCmd.loop. rewrite !loop_from.
    cbn [SelectCmd.value SelectCmd.submitted app].
    now rewrite filter_kept_twice.
  - intros H. revert H. unfold SelectCmd.Run.
    cbn [SelectCmd.tasks SelectCmd.value]. intros ->. reflexivity.
Qed.

End SelectFacts.

(** * The parser at work on the sample installation *)

Example normalize_ex1 :
  normalize (str "  cp   a    b  # copy") = str "cp a b".
Proof. reflexivity. Qed.

Example normalize_ex9 :
  normalize (str "cp a         b") = str "cp a  b".
Proof. reflexivity. Qed.

Example regexCmdAndOr_ex :
  FindStringSubmatch regexCmdAndOr (str "cp a b && echo ok || echo fail")
  = Some [str "cp a b && echo ok || echo fail";
          str "cp a b"; str "echo ok"; str "echo fail"].
Proof. reflexivity. Qed.

Example regexCmdAnd_ex :
  FindStringSubmatch regexCmdAnd (str "cp a && cp b && cp c")
  = Some [str "cp a && cp b && cp c"; str "cp a"; str "cp b && cp c"].
Proof. reflexivity. Qed.

Example regexCmdAnd_comment_ex :
  FindStringSubmatch regexCmdAnd (str "#a && b && c")
  = Some [str "#a && b && c"; str "#a"; str "b && c"].
Proof. reflexivity. Qed.

Example Base_ex1 : Base (str "dir/sub/file.txt") = str "file.txt".
Proof. reflexivity. Qed.

Example Base_ex2 : Base (str "s3://bucket/key/") = str "key".
Proof. reflexivity. Qed.

Example Base_ex3 : Base (str "//") = str "/".
Proof. reflexivity. Qed.



(** A channel with an object on Glacier storage, an object with an error
    and a file whose task succeeds: two errors are printed and the run
    returns [nil]. *)
Lemma Run_glacier_returns_nil :
  In (str "object 's3://bucket/old' is on Glacier storage")
    (SelectCmd.mainPrinted
       (SampleRun.Run (inl [SampleRun.archived "s3://bucket/old";
                            SampleRun.unreadable "s3://bucket/x" "AccessDenied";
                            SampleRun.file "s3://bucket/new"])))
  /\ SelectCmd.tasks
       (SampleRun.Run (inl [SampleRun.archived "s3://bucket/old";
                            SampleRun.unreadable "s3://bucket/x" "AccessDenied";
                            SampleRun.file "s3://bucket/new"]))
     = [str "s3://bucket/new"]
  /\ SelectCmd.value
       (SampleRun.Run (inl [SampleRun.archived "s3://bucket/old";
                            SampleRun.unreadable "s3://bucket/x" "AccessDenied";
                            SampleRun.file "s3://bucket/new"]))
     = SelectCmd.Nil.
Proof.
  destruct (@Run_reported_objects_return_nil _ _ SampleRun.IsCancelation
              SampleRun.glacierError SampleRun.delivered SampleRun.asMultierror
              [SampleRun.archived "s3://bucket/old";
               SampleRun.unreadable "s3://bucket/x" "AccessDenied";
               SampleRun.file "s3://bucket/new"]
              (SampleRun.archived "s3://bucket/old")
              (or_introl eq_refl) eq_refl eq_refl (or_intror eq_refl))
    as (_ & H2 & _ & _ & H5).
  exact (conj (H2 eq_refl) (conj eq_refl (H5 eq_refl))).
Defined.

(** C3 at a run of nine spaces: three passes of [strings.Replace] leave
    two of them, and [parts] gets an empty token. *)
Theorem normalize_nine_spaces :
  normalize (str "cp a         b") = str "cp a  b"
  /\ Contains (normalize (str "cp a         b")) (str "  ") = true
  /\ Split (normalize (str "cp a         b")) (str " ")
     = [str "cp"; str "a"; []; str "b"].
Proof. repeat split. Qed.

(** C4 where every token after the keyword is an accepted option: the
    option loop runs to its end, [fileArgsStartPosition] is still 1, and
    the two options are counted, and validated, as the two arguments of
    [cp]. *)
Theorem scanOpts_all_options :
  scanOpts Sample.GetParam (Sample.GetAcceptedOpts Sample.OpLocalCopy) 1
    [str "-n"; str "-s"] []
  = Some (1, [Sample.OptNoClobber; Sample.OptIfSizeDiffer])
  /\ Sample.ParseJob (str "cp -n -s")
     = Returns
         (Some (mkJob (str "cp -n -s") (str "cp") Sample.OpLocalCopy
                  [mkArg (str "-n") None; mkArg (str "-s") None]
                  [Sample.OptNoClobber; Sample.OptIfSizeDiffer]
                  None None 0 0)).
Proof. split; reflexivity. Qed.

(** C5 where an option precedes the arguments: the second loop starts at
    [parts[maxI+2]] with [maxI] an index into [c.params], and validates
    the first argument again. *)
Theorem checkRest_after_option :
  Sample.ParseJob (str "echo -n a b")
  = Returns
      (Some (mkJob (str "echo -n a b") (str "echo") Sample.OpEcho
               [mkArg (str "a") None; mkArg (str "a") None; mkArg (str "b") None]
               [Sample.OptNoNewline] None None 0 0)).
Proof. reflexivity. Qed.

(** The token [a]] on the sample installation. *)
Lemma closing_bracket_is_glob :
  ContainsAny (str "a]") GlobCharacters = false
  /\ Sample.parseArgumentByType (str "a]") FileObj None
     = Err (str "Param should not contain glob characters")
  /\ Sample.parseArgumentByType (str "a]") Glob None
     = Ok (mkArg (str "a]") None).
Proof.
  destruct (@closing_bracket_counts_as_glob Sample.ParseS3Url Sample.Format
              Sample.wildChars Sample.Stat Sample.MatchErr (str "a]") None
              (str "S3 url should start with s3://") eq_refl eq_refl eq_refl)
    as (_ & H2 & _ & H4).
  exact (conj eq_refl (conj H2 (H4 eq_refl))).
Defined.

(** A bucket alone, and the basename of [dir/file.txt]. *)
Lemma S3ObjOrDir_borrows_basename_witness :
  Sample.parseArgumentByType (str "s3://bucket") S3ObjOrDir
    (Some (mkArg (str "dir/file.txt") None))
  = Ok (mkArg (str "s3://bucket/file.txt")
          (Some (mkS3Url (str "bucket") (str "file.txt")))).
Proof.
  exact (proj1 (@S3ObjOrDir_borrows_basename Sample.ParseS3Url Sample.Format
                  Sample.wildChars Sample.Stat Sample.MatchErr
                  (str "s3://bucket") (mkS3Url (str "bucket") [])
                  (mkArg (str "dir/file.txt") None) eq_refl)
           eq_refl).
Defined.

(** C7 as stated fails for a key that ends in a separator and holds a
    wildcard: nothing is appended, the token is refused. *)
Lemma S3ObjOrDir_wildcard_key :
  Sample.ParseS3Url (str "s3://bucket/dir*/")
  = Ok (mkS3Url (str "bucket") (str "dir*/"))
  /\ HasSuffix (str "dir*/") (str "/") = true
  /\ Sample.parseArgumentByType (str "s3://bucket/dir*/") S3ObjOrDir
       (Some (mkArg (str "dir/file.txt") None))
     = Err (str "S3 key cannot contain wildcards").
Proof. repeat split. Qed.

(** A file, a path that does not exist and a path that cannot be read, as
    [Dir]. *)
Lemma Dir_without_separator_witness :
  Sample.parseArgumentByType (str "a.txt") Dir None
  = Err (str "Dir param can not be file")
  /\ Sample.parseArgumentByType (str "new") Dir None
     = Ok (mkArg (str "new/") None)
  /\ Sample.parseArgumentByType (str "locked") Dir None
     = Err (str "Could not stat").
Proof.
  split; [|split].
  - exact (proj1 (@Dir_without_separator Sample.ParseS3Url Sample.Format
                    Sample.wildChars Sample.Stat Sample.MatchErr
                    (str "a.txt") None _ eq_refl eq_refl eq_refl eq_refl)
             eq_refl).
  - exact (proj1 (proj2 (@Dir_without_separator Sample.ParseS3Url Sample.Format
                    Sample.wildChars Sample.Stat Sample.MatchErr
                    (str "new") None _ eq_refl eq_refl eq_refl eq_refl))
             eq_refl).
  - exact (proj1 (proj2 (proj2 (proj2
             (@Dir_without_separator Sample.ParseS3Url Sample.Format
                Sample.wildChars Sample.Stat Sample.MatchErr
                (str "locked") None _ eq_refl eq_refl eq_refl eq_refl))))
             eq_refl).
Defined.

(** C8 as stated fails for a token with a glob character: the path does
    not exist, and the token is refused before any call of [os.Stat]. *)
Lemma Dir_glob_token_refused :
  Sample.ParseS3Url (str "a*") = Err (str "S3 url should start with s3://")
  /\ endsInSep (str "a*") = false
  /\ Sample.Stat (str "a*") = StatNotExist
  /\ Sample.parseArgumentByType (str "a*") Dir None
     = Err (str "Param should not contain glob characters").
Proof. repeat split. Qed.

(** The token "." on the sample installation. *)
Lemma dot_is_dot_slash_witness :
  Sample.parseArgumentByType (str ".") FileObj None
  = Err (str "File param should not end with /")
  /\ Sample.parseArgumentByType (str ".") Dir None = Ok (mkArg (str "./") None)
  /\ Sample.parseArgumentByType (str ".") FileOrDir None
     = Ok (mkArg (str "./") None)
  /\ statCalls Sample.ParseS3Url Sample.Format Sample.wildChars Sample.Stat
       Sample.MatchErr (str ".") FileOrDir None = [].
Proof.
  destruct (@dot_is_dot_slash Sample.ParseS3Url Sample.Format Sample.wildChars
              Sample.Stat Sample.MatchErr None _ eq_refl)
    as (_ & _ & H1 & H2 & H3 & _ & _ & H4).
  exact (conj H1 (conj H2 (conj H3 H4))).
Defined.

(** C10 as stated fails for [FileOrDir] when a basename is borrowed: the
    canonical string is "./" followed by the basename. *)
Lemma dot_FileOrDir_borrows_basename :
  Sample.parseArgumentByType (str ".") FileOrDir
    (Some (mkArg (str "a.txt") None))
  = Ok (mkArg (str "./a.txt") None)
  /\ Sample.parseArgumentByType (str ".") FileOrDir
       (Some (mkArg (str "a.txt") None))
     <> Ok (mkArg (str "./") None).
Proof. split; [reflexivity|discriminate]. Qed.

(** A comment line. *)
Lemma ParseJob_blank_or_comment_witness :
  Sample.ParseJob (str "# copy the logs") = Returns None.
Proof.
  exact (@ParseJob_blank_or_comment _ _ Sample.GetAcceptedOpts Sample.GetParam
           Sample.ParseS3Url Sample.Format Sample.wildChars Sample.Stat
           Sample.MatchErr Sample.commands (str "# copy the logs")
           (or_intror (conj eq_refl (conj eq_refl eq_refl)))).
Defined.

(** One option before the two arguments of [cp]. *)
Lemma option_boundary_and_arity_witness :
  scanOpts Sample.GetParam (Sample.GetAcceptedOpts Sample.OpLocalCopy) 1
    [str "-n"; str "a.txt"; str "b"] []
  = Some (2, [Sample.OptNoClobber]).
Proof.
  exact (proj1 (@option_boundary_and_arity _ _ Sample.GetAcceptedOpts
                  Sample.GetParam Sample.ParseS3Url Sample.Format
                  Sample.wildChars Sample.Stat Sample.MatchErr
                  (str "cp -n a.txt b") (str "cp") [str "-n"] (str "a.txt")
                  [str "b"]
                  (mkCommand (str "cp") Sample.OpLocalCopy [FileObj; FileOrDir] [])
                  eq_refl eq_refl
                  (fun H : str "a.txt" = [] =>
                     eq_ind (str "a.txt")
                       (fun l => match l with [] => False | _ :: _ => True end)
                       I [] H))).
Defined.

(** [echo] with three words and no option. *)
Lemma variadic_rest_from_params_length_witness :
  tryCommand Sample.GetAcceptedOpts Sample.GetParam Sample.ParseS3Url
    Sample.Format Sample.wildChars Sample.Stat Sample.MatchErr
    (str "echo a b c") [str "echo"; str "a"; str "b"; str "c"]
    (mkCommand (str "echo") Sample.OpEcho [UncheckedOneOrMore] [])
  = CandMatch
      (mkJob (str "echo a b c") (str "echo") Sample.OpEcho
         [mkArg (str "a") None; mkArg (str "b") None; mkArg (str "c") None]
         [] None None 0 0).
Proof.
  exact (proj1 (@variadic_rest_from_params_length _ _ Sample.GetAcceptedOpts
                  Sample.GetParam Sample.ParseS3Url Sample.Format
                  Sample.wildChars Sample.Stat Sample.MatchErr
                  (str "echo a b c") [str "echo"; str "a"; str "b"; str "c"]
                  (mkCommand (str "echo") Sample.OpEcho [UncheckedOneOrMore] [])
                  1 []
                  (mkArgState [mkArg (str "a") None] None None 0
                     UncheckedOneOrMore)
                  eq_refl eq_refl (le_S _ _ (le_S _ _ (le_n 2)))
                  eq_refl eq_refl)).
Defined.

(** * Further properties *)

(** ** The type validator, type by type *)

Section ValidatorMore.

Variable ParseS3Url : gostring -> result S3Url.
Variable Format : S3Url -> gostring.
Variable wildChars : gostring.
Variable Stat : gostring -> StatResult.
Variable MatchErr : gostring -> option error.

Local Abbreviation validate :=
  (parseArgumentByType ParseS3Url Format wildChars Stat MatchErr).
Local Abbreviation stats :=
  (statCalls ParseS3Url Format wildChars Stat MatchErr).

Lemma endsInSep_snoc (s : gostring) : endsInSep (s ++ [Separator]) = true.
Proof. unfold endsInSep. rewrite rev_app_distr. reflexivity. Qed.

Lemma hasGlob_snoc_sep (s : gostring) : hasGlob (s ++ [Separator]) = hasGlob s.
Proof.
  unfold hasGlob. rewrite ContainsAny_app.
  replace (ContainsAny [Separator] (str "*[]?")) with false by reflexivity.
  apply orb_false_r.
Qed.

Lemma endsInSep_not_dot (s : gostring) :
  endsInSep s = true -> gostring_eqb s (str ".") = false.
Proof.
  intros H. apply gostring_eqb_neq. intros ->. discriminate.
Qed.

Lemma dotSlash_endsInSep (s : gostring) :
  endsInSep (dotSlash s) = false -> dotSlash s = s.
Proof.
  unfold dotSlash. destruct (gostring_eqb s (str ".")); [discriminate|reflexivity].
Qed.

(** X4.  No token is accepted both as a local type and as a remote type:
    of the two validations at least one fails. *)
Theorem local_and_remote_exclude (s : gostring) (tl tr : ParamType)
    (o1 o2 : option JobArgument) :
  isLocalType tl = true ->
  isS3Type tr = true ->
  (exists e, validate s tl o1 = Err e) \/ (exists e, validate s tr o2 = Err e).
Proof.
  intros Hl Hr. unfold parseArgumentByType, parseArgumentByTypeIO.
  destruct (ParseS3Url s) as [uri|e] eqn:HP.
  - left. destruct tl; try discriminate; eexists; reflexivity.
  - right. destruct tr; try discriminate; eexists; reflexivity.
Qed.

Ltac s3_cases :=
  repeat match goal with
         | H : exists _, _ |- _ => destruct H
         | H : _ /\ _ |- _ => destruct H
         end;
  try discriminate; try congruence;
  try (eexists; reflexivity);
  try (left; reflexivity); try (right; reflexivity);
  try match goal with
      | H : _ \/ _ |- _ => destruct H; try discriminate; try congruence
      end.

(** X5.  A token that parses as a remote location is accepted as [S3Obj]
    exactly when its key holds no wildcard and does not end in a
    separator, as [S3WildObj] exactly when its key holds a wildcard, and as
    [S3Dir] exactly when its key is empty or ends in a separator.  So one
    of the three accepts it, [S3Obj] and [S3WildObj] never both; and what
    they return is the parsed URL under the string rebuilt from it. *)
Theorem remote_types_accept (s : gostring) (uri : S3Url)
    (o : option JobArgument) :
  ParseS3Url s = Ok uri ->
  ((exists a, validate s S3Obj o = Ok a)
   <-> HasWild wildChars (Key uri) = false
       /\ HasSuffix (Key uri) (str "/") = false)
  /\ ((exists a, validate s S3WildObj o = Ok a)
      <-> HasWild wildChars (Key uri) = true)
  /\ ((exists a, validate s S3Dir o = Ok a)
      <-> Key uri = [] \/ HasSuffix (Key uri) (str "/") = true)
  /\ (forall t a,
        t = S3Obj \/ t = S3WildObj \/ t = S3Dir ->
        validate s t o = Ok a ->
        a = mkArg (str "s3://" ++ Format uri) (Some uri)).
Proof.
  intros HP.
  unfold parseArgumentByType, parseArgumentByTypeIO. rewrite HP.
  cbv beta iota delta [snd]. unfold parseS3Argument.
  destruct uri as [bucket key]. cbn [Key Bucket].
  destruct key as [|c key].
  - replace (HasWild wildChars []) with false by reflexivity.
    replace (HasSuffix [] (str "/")) with false by reflexivity.
    cbn [ParamType_eqb orb andb negb gostring_eqb].
    split; [|split; [|split]]; try (split; intros; s3_cases).
    intros t a [-> | [-> | ->]] H;
      cbn [ParamType_eqb orb andb negb gostring_eqb] in H; s3_cases.
  - replace (gostring_eqb (c :: key) []) with false by reflexivity.
    destruct (HasWild wildChars (c :: key)) eqn:HW;
      destruct (HasSuffix (c :: key) (str "/")) eqn:HS;
      cbn [ParamType_eqb orb andb negb];
      (split; [|split; [|split]]); try (split; intros; s3_cases);
      intros t a [-> | [-> | ->]] H;
      cbn [ParamType_eqb orb andb negb] in H;
      rewrite ?HW, ?HS in H; cbn [ParamType_eqb orb andb negb] in H; s3_cases.
Qed.

(** What an accepted [Dir] argument looks like. *)
Lemma Dir_ok_inv (s : gostring) (o : option JobArgument) (a : JobArgument) :
  validate s Dir o = Ok a ->
  (exists e, ParseS3Url s = Err e)
  /\ hasGlob s = false
  /\ s3 a = None
  /\ ((endsInSep (dotSlash s) = true /\ arg a = dotSlash s
       /\ stats s Dir o = [])
      \/ (endsInSep s = false /\ gostring_eqb s (str ".") = false
          /\ arg a = s ++ [Separator]
          /\ Stat s <> StatOk false /\ Stat s <> StatFail
          /\ stats s Dir o = [s])).
Proof.
  unfold parseArgumentByType, statCalls.
  destruct (ParseS3Url s) as [uri|e] eqn:HP.
  - unfold parseArgumentByTypeIO. rewrite HP. discriminate.
  - rewrite (@validate_local ParseS3Url Format wildChars Stat MatchErr
               s Dir o e HP (or_intror (or_intror eq_refl))).
    unfold parseLocalArgument. rewrite hasGlob_dotSlash.
    destruct (hasGlob s); [discriminate|].
    destruct (endsInSep (dotSlash s)) eqn:HE; cbn [negb].
    + cbn [fst snd]. intros [= <-]. cbn [arg s3].
      split; [now exists e|]. split; [reflexivity|]. split; [reflexivity|].
      left. now repeat split.
    + pose proof (dotSlash_endsInSep _ HE) as Hd. rewrite Hd in *.
      assert (Hdot : gostring_eqb s (str ".") = false).
      { destruct (gostring_eqb s (str ".")) eqn:E; [|reflexivity].
        apply gostring_eqb_eq in E. subst s. discriminate. }
      destruct (Stat s) as [[|]| |] eqn:HS; cbn [fst snd]; try discriminate;
        intros [= <-]; cbn [arg s3];
        (split; [now exists e|]); (split; [reflexivity|]);
        (split; [reflexivity|]); right; repeat split; try assumption;
        discriminate.
Qed.

(** X6.  An argument accepted as [Dir] always ends in a separator, holds
    none of the characters [*], [[], []], [?] and carries no URL.  It is
    the token itself when that ends in a separator and "./" for the token
    "."; otherwise it is the token with a separator appended, and then
    the path is no existing regular file and [os.Stat] did not fail on it
    for another reason than a missing path. *)
Theorem Dir_result_ends_in_separator (s : gostring) (o : option JobArgument)
    (a : JobArgument) :
  validate s Dir o = Ok a ->
  endsInSep (arg a) = true
  /\ hasGlob (arg a) = false
  /\ s3 a = None
  /\ (endsInSep (dotSlash s) = true -> arg a = dotSlash s)
  /\ (endsInSep (dotSlash s) = false ->
      arg a = s ++ [Separator]
      /\ Stat s <> StatOk false /\ Stat s <> StatFail).
Proof.
  intros H. destruct (Dir_ok_inv _ _ H) as (_ & HG & H3 & Hc).
  destruct Hc as [(HE & Ha & _) | (HE & Hdot & Ha & HS & HF & _)].
  - rewrite Ha. split; [assumption|]. split; [now rewrite hasGlob_dotSlash|].
    split; [assumption|]. split; [reflexivity|]. intros E. congruence.
  - assert (Hd : dotSlash s = s).
    { apply dotSlash_other. now apply gostring_eqb_neq. }
    rewrite Ha, Hd. split; [apply endsInSep_snoc|].
    split; [now rewrite hasGlob_snoc_sep|]. split; [assumption|].
    split; [intros E; congruence|]. intros _. now repeat split.
Qed.

(** X7.  Validation as [Dir] is idempotent: the canonical string of an
    accepted [Dir] argument, when it is no remote location either, is
    accepted as [Dir] again, unchanged and without a call of [os.Stat]. *)
Theorem Dir_canonical_is_fixed (s : gostring) (o o' : option JobArgument)
    (a : JobArgument) (e : error) :
  validate s Dir o = Ok a ->
  ParseS3Url (arg a) = Err e ->
  validate (arg a) Dir o' = Ok a /\ stats (arg a) Dir o' = [].
Proof.
  intros H HP. destruct (Dir_ok_inv _ _ H) as (_ & HG & H3 & Hc).
  assert (HE : endsInSep (arg a) = true).
  { destruct Hc as [(HE & Ha & _) | (_ & _ & Ha & _)]; rewrite Ha;
      [assumption|apply endsInSep_snoc]. }
  assert (HGa : hasGlob (arg a) = false).
  { destruct Hc as [(_ & Ha & _) | (_ & _ & Ha & _)]; rewrite Ha;
      [now rewrite hasGlob_dotSlash|now rewrite hasGlob_snoc_sep]. }
  unfold parseArgumentByType, statCalls.
  rewrite (@validate_local ParseS3Url Format wildChars Stat MatchErr
             (arg a) Dir o' e HP (or_intror (or_intror eq_refl))).
  unfold parseLocalArgument.
  rewrite (dotSlash_other (proj1 (gostring_eqb_neq _ _) (endsInSep_not_dot _ HE))).
  rewrite HGa, HE. cbn. destruct a as [x u]. cbn in *. now subst u.
Qed.

(** X8.  A token is accepted as [FileObj] exactly when it is no remote
    location, holds none of the characters [*], [[], []], [?], does not
    end in a separator, is not "." and is no existing directory; the
    argument is then the token itself, with no URL, and the path was
    handed to [os.Stat] once. *)
Theorem FileObj_accepts (s : gostring) (o : option JobArgument) :
  ((exists a, validate s FileObj o = Ok a)
   <-> (exists e, ParseS3Url s = Err e)
       /\ hasGlob s = false
       /\ endsInSep s = false
       /\ gostring_eqb s (str ".") = false
       /\ Stat s <> StatOk true)
  /\ (forall a, validate s FileObj o = Ok a ->
        a = mkArg s None /\ stats s FileObj o = [s]).
Proof.
  unfold parseArgumentByType, statCalls.
  destruct (ParseS3Url s) as [uri|e] eqn:HP.
  - unfold parseArgumentByTypeIO. rewrite HP. cbn [fst snd]. split.
    + split; [intros [a H]; discriminate|intros [[e H] _]; discriminate].
    + intros a H. discriminate.
  - rewrite (@validate_local ParseS3Url Format wildChars Stat MatchErr
               s FileObj o e HP (or_introl eq_refl)).
    unfold parseLocalArgument. rewrite hasGlob_dotSlash.
    destruct (hasGlob s).
    { cbn [fst snd]. split.
      - split; [intros [a H]; discriminate|].
        intros (_ & H & _). discriminate.
      - intros a H. discriminate. }
    unfold dotSlash. destruct (gostring_eqb s (str ".")) eqn:Ed.
    { apply gostring_eqb_eq in Ed. subst s. cbn. split.
      - split; [intros [a H]; discriminate|].
        intros (_ & _ & _ & H & _). discriminate.
      - intros a H. discriminate. }
    destruct (endsInSep s) eqn:HE.
    { cbn [fst snd]. split.
      - split; [intros [a H]; discriminate|].
        intros (_ & _ & H & _). discriminate.
      - intros a H. discriminate. }
    destruct (Stat s) as [[|]| |] eqn:HS; cbn [fst snd]; split;
      try (split; [intros [a H]; discriminate|
                   intros (_ & _ & _ & _ & H); congruence]);
      try (split; [intros _; repeat split; try reflexivity;
                     [now exists e|discriminate]
                  |intros _; eexists; reflexivity]);
      intros a H; try discriminate; injection H as <-; now split.
Qed.

(** X9.  A token that is no remote location and holds none of the
    characters [*], [[], []], [?] is refused as [FileOrDir] only when it
    does not end in a separator and [os.Stat] fails for another reason
    than a missing path; a path that does not exist is accepted.  When the
    token does not end in a separator, the argument ends in one exactly
    when the path is an existing directory. *)
Theorem FileOrDir_accepts (s : gostring) (o : option JobArgument) (e : error) :
  ParseS3Url s = Err e ->
  hasGlob s = false ->
  ((exists a, validate s FileOrDir o = Ok a)
   <-> endsInSep (dotSlash s) = true \/ Stat s <> StatFail)
  /\ (endsInSep (dotSlash s) = false ->
      Stat s = StatFail ->
      validate s FileOrDir o = Err (str "Could not stat"))
  /\ (endsInSep (dotSlash s) = false ->
      forall a, validate s FileOrDir o = Ok a ->
                (endsInSep (arg a) = true <-> Stat s = StatOk true)).
Proof.
  intros HP HG. unfold parseArgumentByType.
  rewrite (@validate_local ParseS3Url Format wildChars Stat MatchErr
             s FileOrDir o e HP (or_intror (or_introl eq_refl))).
  unfold parseLocalArgument. rewrite hasGlob_dotSlash, HG.
  destruct (endsInSep (dotSlash s)) eqn:HE.
  - cbn [fst snd]. split; [|split]; try discriminate.
    split; [intros _; now left|intros _; eexists; reflexivity].
  - pose proof (dotSlash_endsInSep _ HE) as Hd. rewrite Hd in *.
    destruct (Stat s) as [[|]| |] eqn:HS; cbn [fst snd];
      (split; [|split]); try discriminate; try reflexivity;
      try (split; [intros _; right; discriminate|intros _; eexists; reflexivity]);
      try (intros _ a [= <-]; cbn [arg]; rewrite ?endsInSep_snoc, ?HE;
           split; try discriminate; reflexivity);
      try (intros _ a H; discriminate).
    split; [intros [a H]; discriminate|intros [H|H]; [discriminate|congruence]].
Qed.

Ltac stat_fin :=
  repeat split; intros; try discriminate; try reflexivity;
  try (left; reflexivity); try (right; reflexivity);
  try match goal with
      | H : exists _, _ |- _ => destruct H; discriminate
      end.

Ltac glob_split :=
  try match goal with
      | |- context [match ?m with Some _ => _ | None => _ end] =>
          destruct (negb (hasGlob _)); [|destruct m]
      end.

(** X10.  A validation hands at most one path to [os.Stat], the token
    itself; it hands none for [Unchecked], [UncheckedOneOrMore], the
    remote types and [Glob], none for a token that ends in a separator,
    and none for a token that is refused as remote or for its glob
    characters. *)
Theorem at_most_one_stat (s : gostring) (t : ParamType)
    (o : option JobArgument) :
  (stats s t o = [] \/ stats s t o = [s])
  /\ (isLocalType t = false -> stats s t o = [])
  /\ (endsInSep s = true -> stats s t o = [])
  /\ (hasGlob s = true -> stats s t o = [])
  /\ ((exists u, ParseS3Url s = Ok u) -> stats s t o = []).
Proof.
  unfold statCalls, parseArgumentByTypeIO.
  assert (Hloc : forall fnBase,
    (fst (parseLocalArgument Stat t fnBase s) = []
     \/ fst (parseLocalArgument Stat t fnBase s) = [s])
    /\ (endsInSep s = true -> fst (parseLocalArgument Stat t fnBase s) = [])
    /\ (hasGlob s = true -> fst (parseLocalArgument Stat t fnBase s) = [])).
  { intros fnBase. unfold parseLocalArgument. rewrite hasGlob_dotSlash.
    destruct (hasGlob s); [cbn [fst]; stat_fin|].
    unfold dotSlash. destruct (gostring_eqb s (str ".")) eqn:Ed.
    - apply gostring_eqb_eq in Ed. subst s.
      destruct t; cbn; stat_fin.
    - destruct (endsInSep s) eqn:HE.
      + destruct t; cbn [negb fst]; stat_fin.
      + destruct t; cbn [negb fst]; try stat_fin;
          destruct (Stat s) as [[|]| |]; cbn [fst]; stat_fin. }
  destruct (ParseS3Url s) as [u|e] eqn:HP.
  - destruct t; cbn [fst isLocalType]; glob_split; stat_fin.
  - destruct t; cbn [fst isLocalType]; glob_split; try solve [stat_fin];
      match goal with
      | |- context [parseLocalArgument Stat _ ?b s] =>
          destruct (Hloc b) as (H1 & H2 & H3)
      end;
      (split; [exact H1|]); (split; [discriminate|]);
      (split; [exact H2|]); (split; [exact H3|]);
      intros [u H]; discriminate.
Qed.

(** X25.  No token is accepted both as a local type and as a glob: the
    local types refuse the characters of which the glob requires at least
    one. *)
Theorem local_and_glob_exclude (s : gostring) (tl : ParamType)
    (o1 o2 : option JobArgument) :
  isLocalType tl = true ->
  (exists e, validate s tl o1 = Err e) \/ (exists e, validate s Glob o2 = Err e).
Proof.
  intros Hl. destruct (hasGlob s) eqn:Hg.
  - left. unfold parseArgumentByType, parseArgumentByTypeIO.
    destruct (ParseS3Url s) as [uri|e] eqn:HP.
    + destruct tl; try discriminate; eexists; reflexivity.
    + unfold parseLocalArgument. rewrite hasGlob_dotSlash, Hg.
      destruct tl; try discriminate; eexists; reflexivity.
  - right. unfold parseArgumentByType, parseArgumentByTypeIO. rewrite Hg.
    eexists; reflexivity.
Qed.

(** X26.  A local token that ends in a separator is accepted as
    [FileOrDir] without a look at the file system.  With an earlier file
    argument to borrow from, the canonical string is the token followed by
    the basename of that argument, and so never the token itself; without
    one it is the token. *)
Theorem FileOrDir_borrows_basename (s : gostring) (fnObj : JobArgument)
    (e : error) :
  ParseS3Url s = Err e ->
  hasGlob s = false ->
  endsInSep (dotSlash s) = true ->
  validate s FileOrDir (Some fnObj)
  = Ok (mkArg (dotSlash s ++ Base (arg fnObj)) None)
  /\ dotSlash s ++ Base (arg fnObj) <> dotSlash s
  /\ validate s FileOrDir None = Ok (mkArg (dotSlash s) None)
  /\ stats s FileOrDir (Some fnObj) = []
  /\ stats s FileOrDir None = [].
Proof.
  intros HP Hg He.
  unfold parseArgumentByType, statCalls, parseArgumentByTypeIO.
  rewrite HP. unfold parseLocalArgument.
  rewrite hasGlob_dotSlash, Hg, He. cbn [ParamType_eqb orb snd fst].
  rewrite Base_eqb_nil. cbn [negb gostring_eqb].
  repeat split.
  intros H. rewrite <- (app_nil_r (dotSlash s)) in H at 2.
  apply app_inv_head in H. now apply Base_nonempty in H.
Qed.

End ValidatorMore.

(** ** The command table at work *)

Section ParserMore.

Variables Operation OptionType : Type.
Variable GetAcceptedOpts : Operation -> list OptionType.
Variable GetParam : OptionType -> gostring.
Variable ParseS3Url : gostring -> result S3Url.
Variable Format : S3Url -> gostring.
Variable wildChars : gostring.
Variable Stat : gostring -> StatResult.
Variable MatchErr : gostring -> option error.
Variable commands : list (commandMap Operation OptionType).

Local Abbreviation parseSingle :=
  (parseSingleJob GetAcceptedOpts GetParam ParseS3Url Format wildChars Stat
     MatchErr commands).
Local Abbreviation parse :=
  (ParseJob GetAcceptedOpts GetParam ParseS3Url Format wildChars Stat
     MatchErr commands).
Local Abbreviation try1 :=
  (tryCommand GetAcceptedOpts GetParam ParseS3Url Format wildChars Stat
     MatchErr).
Local Abbreviation tryAll :=
  (tryCommands GetAcceptedOpts GetParam ParseS3Url Format wildChars Stat
     MatchErr commands).

(** A segment that reaches the command table. *)
Lemma parseSingleJob_table (jobdesc : gostring) :
  jobdesc <> [] ->
  HasPrefix jobdesc (str "#") = false ->
  Contains jobdesc (str "&&") = false ->
  Contains jobdesc (str "||") = false ->
  parseSingle jobdesc
  = tryAll jobdesc (Split jobdesc (str " ")) 0 commands None None.
Proof.
  intros Hne Hc Hand Hor. unfold parseSingleJob.
  destruct jobdesc as [|c0 rest]; [congruence|].
  rewrite HasPrefix_hash in Hc. now rewrite Hc, Hand, Hor.
Qed.

(** A segment for which the command table gave a Job. *)
Lemma parseSingleJob_job_inv (jobdesc : gostring)
    (j : Job Operation OptionType) :
  parseSingle jobdesc = Returns (Some j) ->
  jobdesc <> []
  /\ HasPrefix jobdesc (str "#") = false
  /\ Contains jobdesc (str "&&") = false
  /\ Contains jobdesc (str "||") = false
  /\ tryAll jobdesc (Split jobdesc (str " ")) 0 commands None None
     = Returns (Some j).
Proof.
  unfold parseSingleJob. destruct jobdesc as [|c0 rest]; [discriminate|].
  rewrite HasPrefix_hash.
  destruct (Ascii.eqb c0 "#"); [discriminate|].
  destruct (Contains (c0 :: rest) (str "&&")); [discriminate|].
  destruct (Contains (c0 :: rest) (str "||")); [discriminate|].
  intros H. repeat split; try assumption. discriminate.
Qed.

(** Entries with another keyword are passed over. *)
Lemma tryCommands_other_keywords (jobdesc : gostring) (parts : list gostring)
    (cs : list (commandMap Operation OptionType)) (i : nat)
    (found : option nat) (perr : option error) :
  (forall c, In c cs -> keyword c <> hd [] parts) ->
  tryAll jobdesc parts i cs found perr
  = tryAll jobdesc parts (i + length cs) [] found perr.
Proof.
  revert i; induction cs as [|c cs IH]; intros i H.
  - cbn [length]. now rewrite Nat.add_0_r.
  - cbn [tryCommands].
    assert (E : gostring_eqb (hd [] parts) (keyword c) = false).
    { apply gostring_eqb_neq. intros E. apply (H c); [now left|now symmetry]. }
    rewrite E, IH by (intros c' Hc'; apply H; now right).
    cbn [length]. replace (S i + length cs) with (i + S (length cs)) by lia.
    reflexivity.
Qed.

(** X11.  A segment that is not empty, is no comment and holds no
    operator, and whose first token is the keyword of no entry of the
    table, fails with the error that names this token as an unknown
    command. *)
Theorem unknown_command (jobdesc : gostring) :
  jobdesc <> [] ->
  HasPrefix jobdesc (str "#") = false ->
  Contains jobdesc (str "&&") = false ->
  Contains jobdesc (str "||") = false ->
  (forall c, In c commands -> keyword c <> hd [] (Split jobdesc (str " "))) ->
  parseSingle jobdesc
  = Fails (unknownCommand (hd [] (Split jobdesc (str " ")))).
Proof.
  intros Hne Hc Hand Hor Hkw.
  rewrite parseSingleJob_table by assumption.
  now rewrite tryCommands_other_keywords by assumption.
Qed.

(** The loop over entries that all fail, from a state in which [found],
    if set, is the index of an entry with the keyword. *)
Lemma tryCommands_all_fail (jobdesc : gostring) (parts : list gostring)
    (cs pre : list (commandMap Operation OptionType))
    (found : option nat) (perr : option error) :
  commands = pre ++ cs ->
  (forall n, found = Some n ->
             exists c, nth_error commands n = Some c
                       /\ keyword c = hd [] parts) ->
  (forall c, In c cs -> keyword c = hd [] parts ->
             try1 jobdesc parts c = CandArity
             \/ exists e, try1 jobdesc parts c = CandArgErr e) ->
  (found = None -> exists c, In c cs /\ keyword c = hd [] parts) ->
  exists detail,
    tryAll jobdesc parts (length pre) cs found perr
    = Fails (invalidParameters (hd [] parts) ++ detail)
    /\ (detail = [] \/ exists e, detail = str ": " ++ e).
Proof.
  revert pre found perr; induction cs as [|c cs IH];
    intros pre found perr Hcmd Hfound Hfail Hsome.
  - cbn [tryCommands]. destruct found as [n|].
    + destruct (Hfound n eq_refl) as (c & Hn & Hk). rewrite Hn, Hk.
      destruct perr as [e|].
      * exists (str ": " ++ e). split; [reflexivity|]. right. now exists e.
      * exists []. split; [now rewrite app_nil_r|now left].
    + destruct (Hsome eq_refl) as (c & [] & _).
  - cbn [tryCommands].
    assert (Hcmd' : commands = (pre ++ [c]) ++ cs)
      by (now rewrite <- app_assoc).
    assert (Hlen : length (pre ++ [c]) = S (length pre))
      by (rewrite length_app; cbn; lia).
    destruct (gostring_eqb (hd [] parts) (keyword c)) eqn:E.
    + apply gostring_eqb_eq in E. symmetry in E.
      assert (Hidx : forall n, Some (length pre) = Some n ->
                exists c0, nth_error commands n = Some c0
                           /\ keyword c0 = hd [] parts).
      { intros n [= <-]. exists c. split; [|assumption].
        rewrite Hcmd, nth_error_app2 by lia. now rewrite Nat.sub_diag. }
      destruct (Hfail c (or_introl eq_refl) E) as [Hc | [e Hc]]; rewrite Hc;
        rewrite <- Hlen; apply IH; try assumption;
        try (intros c' Hc'; apply Hfail; now right); discriminate.
    + rewrite <- Hlen. apply IH; try assumption.
      * intros c' Hc'; apply Hfail; now right.
      * intros Hn. destruct (Hsome Hn) as (c' & [<- | Hin] & Hk).
        -- rewrite Hk, gostring_eqb_refl in E. discriminate.
        -- now exists c'.
Qed.

(** X12.  When the first token of a segment is the keyword of some entry
    and every entry with this keyword is passed over, for its arity or
    for an argument that fails validation, the segment fails with the
    error on invalid parameters that names the keyword, followed, when an
    argument failed, by a colon and a validation error. *)
Theorem invalid_parameters (jobdesc : gostring) :
  jobdesc <> [] ->
  HasPrefix jobdesc (str "#") = false ->
  Contains jobdesc (str "&&") = false ->
  Contains jobdesc (str "||") = false ->
  (exists c, In c commands /\ keyword c = hd [] (Split jobdesc (str " "))) ->
  (forall c, In c commands ->
             keyword c = hd [] (Split jobdesc (str " ")) ->
             try1 jobdesc (Split jobdesc (str " ")) c = CandArity
             \/ exists e, try1 jobdesc (Split jobdesc (str " ")) c
                          = CandArgErr e) ->
  exists detail,
    parseSingle jobdesc
    = Fails (invalidParameters (hd [] (Split jobdesc (str " "))) ++ detail)
    /\ (detail = [] \/ exists e, detail = str ": " ++ e).
Proof.
  intros Hne Hc Hand Hor Hex Hfail.
  rewrite parseSingleJob_table by assumption.
  apply (@tryCommands_all_fail jobdesc (Split jobdesc (str " ")) commands []);
    try assumption; try reflexivity.
  - intros n H. discriminate.
  - intros _. exact Hex.
Qed.

(** The loop over entries that are passed over, whatever the state. *)
Lemma tryCommands_passed_over (jobdesc : gostring) (parts : list gostring)
    (pre cs : list (commandMap Operation OptionType)) (i : nat)
    (found : option nat) (perr : option error) :
  (forall c, In c pre -> keyword c = hd [] parts ->
             try1 jobdesc parts c = CandArity
             \/ exists e, try1 jobdesc parts c = CandArgErr e) ->
  exists found' perr',
    tryAll jobdesc parts i (pre ++ cs) found perr
    = tryAll jobdesc parts (i + length pre) cs found' perr'.
Proof.
  revert i found perr; induction pre as [|c pre IH]; intros i found perr H.
  - exists found, perr. cbn [app length]. now rewrite Nat.add_0_r.
  - cbn [app tryCommands length]. rewrite Nat.add_succ_r.
    destruct (gostring_eqb (hd [] parts) (keyword c)) eqn:E.
    + apply gostring_eqb_eq in E. symmetry in E.
      destruct (H c (or_introl eq_refl) E) as [Hc | [e Hc]]; rewrite Hc;
        apply IH; intros c' Hc'; apply H; now right.
    + apply IH; intros c' Hc'; apply H; now right.
Qed.

(** X13.  The first entry of the table that has the keyword and accepts
    the tokens decides: when every entry with the keyword before it is
    passed over, the segment gives the Job of this entry, whatever the
    entries after it would do. *)
Theorem first_match_wins (jobdesc : gostring)
    (pre post : list (commandMap Operation OptionType))
    (c : commandMap Operation OptionType) (j : Job Operation OptionType) :
  jobdesc <> [] ->
  HasPrefix jobdesc (str "#") = false ->
  Contains jobdesc (str "&&") = false ->
  Contains jobdesc (str "||") = false ->
  commands = pre ++ c :: post ->
  (forall c', In c' pre ->
              keyword c' = hd [] (Split jobdesc (str " ")) ->
              try1 jobdesc (Split jobdesc (str " ")) c' = CandArity
              \/ exists e, try1 jobdesc (Split jobdesc (str " ")) c'
                           = CandArgErr e) ->
  keyword c = hd [] (Split jobdesc (str " ")) ->
  try1 jobdesc (Split jobdesc (str " ")) c = CandMatch j ->
  parseSingle jobdesc = Returns (Some j).
Proof.
  intros Hne Hc Hand Hor Hcmd Hpre Hk Hm.
  rewrite parseSingleJob_table by assumption.
  rewrite Hcmd at 2.
  destruct (@tryCommands_passed_over jobdesc (Split jobdesc (str " ")) pre
              (c :: post) 0 None None Hpre) as (found' & perr' & ->).
  cbn [tryCommands]. now rewrite <- Hk, gostring_eqb_refl, Hm.
Qed.

(** The options a candidate ends with: those of the entry, then accepted
    ones. *)
Lemma scanOpts_extends (accepted : list OptionType) (rest : list gostring)
    (k : nat) (jopts : list OptionType) (start : nat) (jo : list OptionType) :
  scanOpts GetParam accepted k rest jopts = Some (start, jo) ->
  exists extra, jo = jopts ++ extra /\ (forall x, In x extra -> In x accepted).
Proof.
  revert k jopts; induction rest as [|p rest IH]; intros k jopts; cbn [scanOpts].
  - intros [= _ <-]. exists []. split; [now rewrite app_nil_r|intros x []].
  - destruct p as [|c0 p]; [discriminate|].
    destruct (negb (Ascii.eqb c0 "-")).
    + intros [= _ <-]. exists []. split; [now rewrite app_nil_r|intros x []].
    + destruct (filter (fun o => gostring_eqb (c0 :: p) (GetParam o)) accepted)
        as [|h hits] eqn:E.
      * intros [= _ <-]. exists []. split; [now rewrite app_nil_r|intros x []].
      * intros H. apply IH in H as (extra & -> & Hin).
        exists ((h :: hits) ++ extra). split; [now rewrite app_assoc|].
        intros x Hx. apply in_app_or in Hx as [Hx|Hx]; [|now apply Hin].
        rewrite <- E in Hx. now apply filter_In in Hx.
Qed.

Lemma checkRest_grows (ps : list gostring) (i : nat) (st : argState) :
  length (stArgs st)
  <= length (stArgs (checkRest ParseS3Url Format wildChars Stat MatchErr
                       i ps st)).
Proof.
  revert i st; induction ps as [|p ps IH]; intros i st; cbn [checkRest];
    [lia|].
  destruct (i <=? maxI st + 1); [apply IH|].
  destruct (parseArgumentByType _ _ _ _ _ _ _ _) as [a|e]; [|cbn; lia].
  eapply Nat.le_trans; [|apply IH]. cbn [stArgs]. rewrite length_app. lia.
Qed.

Lemma checkParams_length (parts : list gostring) (start : nat)
    (ts : list ParamType) (st st' : argState) :
  checkParams ParseS3Url Format wildChars Stat MatchErr parts start 0 ts st
  = Some st' ->
  parseArgErr st' = None ->
  stArgs st = [] ->
  length (stArgs st') = length ts.
Proof.
  intros H He Hnil. destruct ts as [|t ts].
  - cbn in H. injection H as <-. now rewrite Hnil.
  - apply checkParams_done in H; [|assumption|discriminate].
    destruct H as (_ & _ & Hl). rewrite Hl, Hnil. reflexivity.
Qed.

(** What the Job of an accepted candidate looks like. *)
Lemma tryCommand_match_inv (jobdesc : gostring) (parts : list gostring)
    (c : commandMap Operation OptionType) (j : Job Operation OptionType) :
  try1 jobdesc parts c = CandMatch j ->
  sourceDesc j = jobdesc
  /\ command j = keyword c
  /\ jobOperation j = operation c
  /\ successCommand j = None /\ failCommand j = None
  /\ numSuccess j = 0%N /\ numFails j = 0%N
  /\ length (params c) <= length (args j)
  /\ (isVariadic (params c) = false -> length (args j) = length (params c))
  /\ (exists extra,
        jobOpts j = opts c ++ extra
        /\ forall x, In x extra -> In x (GetAcceptedOpts (operation c))).
Proof.
  unfold tryCommand.
  destruct (scanOpts GetParam (GetAcceptedOpts (operation c)) 1 (tl parts)
              (opts c)) as [[start jo]|] eqn:Hs; [|discriminate].
  apply scanOpts_extends in Hs.
  match goal with |- (if ?b then _ else _) = _ -> _ => destruct b end;
    [discriminate|].
  destruct (checkParams _ _ _ _ _ _ _ _ _ _) as [st|] eqn:Hc; [|discriminate].
  destruct (parseArgErr st) eqn:He.
  - rewrite He. discriminate.
  - pose proof (checkParams_length _ _ _ _ Hc He eq_refl) as Hl.
    destruct (isVariadic (params c)) eqn:Hv.
    + replace (Z.of_nat (length (params c)) =? -1)%Z with false
        by (symmetry; apply Z.eqb_neq; lia).
      cbn [negb].
      pose proof (checkRest_grows parts 0 st) as Hg.
      destruct (parseArgErr (checkRest _ _ _ _ _ 0 parts st)); [discriminate|].
      intros [= <-]. cbn. repeat split; try assumption; try lia.
    + rewrite Z.eqb_refl. cbn [negb]. rewrite He.
      intros [= <-]. cbn. repeat split; try assumption; lia.
Qed.

(** A Job comes from an entry with the keyword that accepted the tokens. *)
Lemma tryCommands_returns_inv (jobdesc : gostring) (parts : list gostring)
    (cs : list (commandMap Operation OptionType)) (i : nat)
    (found : option nat) (perr : option error)
    (r : option (Job Operation OptionType)) :
  tryAll jobdesc parts i cs found perr = Returns r ->
  exists c j, In c cs /\ keyword c = hd [] parts
              /\ try1 jobdesc parts c = CandMatch j /\ r = Some j.
Proof.
  revert i found perr; induction cs as [|c cs IH]; intros i found perr;
    cbn [tryCommands].
  - destruct found; [destruct perr|]; discriminate.
  - destruct (gostring_eqb (hd [] parts) (keyword c)) eqn:E.
    + destruct (try1 jobdesc parts c) as [| |e|j] eqn:Ht; try discriminate.
      * intros H. apply IH in H as (c' & j & Hin & H). exists c', j.
        split; [now right|assumption].
      * intros H. apply IH in H as (c' & j & Hin & H). exists c', j.
        split; [now right|assumption].
      * intros [= <-]. exists c, j. apply gostring_eqb_eq in E.
        repeat split; [now left|now symmetry|assumption].
    + intros H. apply IH in H as (c' & j & Hin & H). exists c', j.
      split; [now right|assumption].
Qed.

(** X14.  A Job that a segment gives carries the segment as its source
    text, which holds no operator, the first token as its command, and
    the operation of an entry of the table with this keyword; it has as
    many arguments as the entry declares types, or more when the last
    type is [UncheckedOneOrMore]; its options are those of the entry
    followed by options the operation accepts; it has no continuation, and
    its counters are zero. *)
Theorem returned_job_shape (jobdesc : gostring)
    (j : Job Operation OptionType) :
  parseSingle jobdesc = Returns (Some j) ->
  sourceDesc j = jobdesc
  /\ command j = hd [] (Split jobdesc (str " "))
  /\ Contains jobdesc (str "&&") = false
  /\ Contains jobdesc (str "||") = false
  /\ successCommand j = None /\ failCommand j = None
  /\ numSuccess j = 0%N /\ numFails j = 0%N
  /\ (exists c,
        In c commands
        /\ keyword c = command j
        /\ jobOperation j = operation c
        /\ length (params c) <= length (args j)
        /\ (isVariadic (params c) = false ->
            length (args j) = length (params c))
        /\ exists extra,
             jobOpts j = opts c ++ extra
             /\ forall x, In x extra -> In x (GetAcceptedOpts (operation c))).
Proof.
  intros H. apply parseSingleJob_job_inv in H as (_ & _ & Hand & Hor & H).
  apply tryCommands_returns_inv in H as (c & j' & Hin & Hk & Ht & [= <-]).
  apply tryCommand_match_inv in Ht
    as (H1 & H2 & H3 & H4 & H5 & H6 & H7 & H8 & H9 & H10).
  repeat split; try assumption; [congruence|].
  exists c. repeat split; try assumption. now symmetry.
Qed.

(** A Job that a segment gives, for the tree of [ParseJob]. *)
Lemma parseSingleJob_flat (x : gostring) (j : Job Operation OptionType) :
  parseSingle x = Returns (Some j) ->
  sourceDesc j = x
  /\ Contains x (str "&&") = false /\ Contains x (str "||") = false
  /\ successCommand j = None /\ failCommand j = None.
Proof.
  intros H. apply parseSingleJob_job_inv in H as (_ & _ & Hand & Hor & H).
  apply tryCommands_returns_inv in H as (c & j' & Hin & Hk & Ht & [= <-]).
  apply tryCommand_match_inv in Ht as (H1 & _ & _ & H4 & H5 & _).
  now repeat split.
Qed.

(** The three calls of [parseSingleJob] and the links, read backwards. *)
Lemma chain_inv (oa ob oc : outcome Operation OptionType)
    (J : Job Operation OptionType) :
  andThen oa (fun j => andThen ob (fun s => andThen oc (fun f => link j s f)))
  = Returns (Some J) ->
  exists j s f,
    oa = Returns (Some j) /\ ob = Returns s /\ oc = Returns f
    /\ J = mkJob (sourceDesc j) (command j) (jobOperation j) (args j)
             (jobOpts j) s f (numSuccess j) (numFails j).
Proof.
  destruct oa as [[j|]|e|]; cbn [andThen]; try discriminate.
  - destruct ob as [s|e|]; cbn [andThen]; try discriminate.
    destruct oc as [f|e|]; cbn [andThen link]; try discriminate.
    intros [= <-]. now exists j, s, f.
  - destruct ob as [s|e|]; cbn [andThen]; try discriminate.
    destruct oc as [f|e|]; cbn [andThen link]; discriminate.
Qed.

(** X15.  The Job that [ParseJob] returns for a line is the parse of its
    own source text with the two links set, and each link is the parse of
    its own source text as it is; no source text in the tree holds an
    operator, and no linked Job has a link of its own: the tree is two
    levels deep at most. *)
Theorem ParseJob_tree_is_flat (line : gostring)
    (J : Job Operation OptionType) :
  parse line = Returns (Some J) ->
  Contains (sourceDesc J) (str "&&") = false
  /\ Contains (sourceDesc J) (str "||") = false
  /\ (exists j, parseSingle (sourceDesc J) = Returns (Some j)
                /\ J = mkJob (sourceDesc j) (command j) (jobOperation j)
                         (args j) (jobOpts j) (successCommand J)
                         (failCommand J) (numSuccess j) (numFails j))
  /\ (forall k, successCommand J = Some k \/ failCommand J = Some k ->
                parseSingle (sourceDesc k) = Returns (Some k)
                /\ Contains (sourceDesc k) (str "&&") = false
                /\ Contains (sourceDesc k) (str "||") = false
                /\ successCommand k = None /\ failCommand k = None).
Proof.
  assert (Hgen : forall a ob oc xb xc,
    (ob = Returns None \/ ob = parseSingle xb) ->
    (oc = Returns None \/ oc = parseSingle xc) ->
    andThen (parseSingle a)
      (fun j => andThen ob (fun s => andThen oc (fun f => link j s f)))
    = Returns (Some J) ->
    Contains (sourceDesc J) (str "&&") = false
    /\ Contains (sourceDesc J) (str "||") = false
    /\ (exists j, parseSingle (sourceDesc J) = Returns (Some j)
                  /\ J = mkJob (sourceDesc j) (command j) (jobOperation j)
                           (args j) (jobOpts j) (successCommand J)
                           (failCommand J) (numSuccess j) (numFails j))
    /\ (forall k, successCommand J = Some k \/ failCommand J = Some k ->
                  parseSingle (sourceDesc k) = Returns (Some k)
                  /\ Contains (sourceDesc k) (str "&&") = false
                  /\ Contains (sourceDesc k) (str "||") = false
                  /\ successCommand k = None /\ failCommand k = None)).
  { intros a ob oc xb xc Hb Hc H.
    apply chain_inv in H as (j & s & f & Ha & Hs & Hf & ->).
    destruct (parseSingleJob_flat _ Ha) as (Hd & Hand & Hor & _).
    cbn [sourceDesc successCommand failCommand]. rewrite Hd.
    split; [assumption|]. split; [assumption|]. split.
    - exists j. split; [assumption|]. now rewrite Hd.
    - assert (Hk : forall o x k,
        (o = Returns None \/ o = parseSingle x) -> o = Returns (Some k) ->
        parseSingle (sourceDesc k) = Returns (Some k)
        /\ Contains (sourceDesc k) (str "&&") = false
        /\ Contains (sourceDesc k) (str "||") = false
        /\ successCommand k = None /\ failCommand k = None).
      { intros o x k [-> | ->] Hk; [discriminate|].
        destruct (parseSingleJob_flat _ Hk) as (Hdk & H1 & H2 & H3 & H4).
        rewrite Hdk. now repeat split. }
      intros k [-> | ->]; [apply (Hk ob xb)|apply (Hk oc xc)]; assumption. }
  unfold ParseJob.
  destruct (FindStringSubmatch regexCmdAndOr (normalize line)) as [res|].
  { apply (Hgen _ _ _ (nth 2 res []) (nth 3 res [])); now right. }
  destruct (FindStringSubmatch regexCmdAnd (normalize line)) as [res|].
  { apply (Hgen _ _ (Returns None) (nth 2 res []) []); [now right|now left]. }
  destruct (FindStringSubmatch regexCmdOr (normalize line)) as [res|].
  { apply (Hgen _ (Returns None) _ [] (nth 2 res [])); [now left|now right]. }
  apply (Hgen _ (Returns None) (Returns None) [] []); now left.
Qed.

Lemma scanOpts_total (accepted : list OptionType) (rest : list gostring)
    (k : nat) (jopts : list OptionType) :
  forallb (fun p => negb (gostring_eqb p [])) rest = true ->
  exists r, scanOpts GetParam accepted k rest jopts = Some r.
Proof.
  revert k jopts; induction rest as [|p rest IH]; intros k jopts H;
    cbn [scanOpts].
  - now eexists.
  - cbn [forallb] in H. apply andb_true_iff in H as [Hp H].
    destruct p as [|c0 p]; [discriminate|].
    destruct (negb (Ascii.eqb c0 "-")); [now eexists|].
    destruct (filter _ accepted); [now eexists|]. now apply IH.
Qed.

Lemma checkParams_total (parts : list gostring) (start : nat)
    (ts : list ParamType) (i : nat) (st : argState) :
  start + i + length ts <= length parts ->
  exists st',
    checkParams ParseS3Url Format wildChars Stat MatchErr parts start i ts st
    = Some st'.
Proof.
  revert i st; induction ts as [|t ts IH]; intros i st H; cbn [checkParams].
  - now eexists.
  - cbn [length] in H.
    destruct (nth_error parts (start + i)) as [p|] eqn:E.
    + destruct (parseArgumentByType _ _ _ _ _ _ _ _); [|now eexists].
      apply IH. lia.
    + apply nth_error_None in E. lia.
Qed.

Lemma tryCommands_no_panic (jobdesc : gostring) (parts : list gostring)
    (cs : list (commandMap Operation OptionType)) (i : nat)
    (found : option nat) (perr : option error) :
  forallb (fun p => negb (gostring_eqb p [])) parts = true ->
  (exists j, tryAll jobdesc parts i cs found perr = Returns j)
  \/ (exists e, tryAll jobdesc parts i cs found perr = Fails e).
Proof.
  intros Hparts. revert i found perr.
  induction cs as [|c cs IH]; intros i found perr; cbn [tryCommands].
  - right. destruct found; [destruct perr|]; now eexists.
  - destruct (gostring_eqb (hd [] parts) (keyword c)); [|apply IH].
    assert (Ht : try1 jobdesc parts c <> CandPanic).
    { unfold tryCommand.
      destruct (@scanOpts_total (GetAcceptedOpts (operation c)) (tl parts) 1
                  (opts c)) as [[start jo] ->].
      { destruct parts as [|p parts]; [reflexivity|].
        cbn [forallb tl] in *. now apply andb_true_iff in Hparts. }
      destruct (Z.of_nat (length parts) - Z.of_nat start
                <? Z.of_nat (length (params c)))%Z eqn:E1;
        cbn [orb]; [discriminate|].
      match goal with |- (if ?b then _ else _) <> _ => destruct b end;
        [discriminate|].
      apply Z.ltb_ge in E1.
      destruct (@checkParams_total parts start (params c) 0
                  (mkArgState [] None None start UncheckedOneOrMore))
        as [st ->]; [lia|].
      destruct (parseArgErr _); [discriminate|]. discriminate. }
    destruct (try1 jobdesc parts c); try congruence; try apply IH.
    left. now eexists.
Qed.

(** X16.  [parseSingleJob] panics only on an empty token: for a segment
    whose tokens are all non-empty it returns, a Job or an error. *)
Theorem no_panic_without_empty_token (jobdesc : gostring) :
  forallb (fun p => negb (gostring_eqb p [])) (Split jobdesc (str " ")) = true ->
  (exists j, parseSingle jobdesc = Returns j)
  \/ (exists e, parseSingle jobdesc = Fails e).
Proof.
  intros Hparts. unfold parseSingleJob.
  destruct jobdesc as [|c0 rest]; [left; now eexists|].
  destruct (Ascii.eqb c0 "#"); [left; now eexists|].
  destruct (Contains (c0 :: rest) (str "&&")); [right; now eexists|].
  destruct (Contains (c0 :: rest) (str "||")); [right; now eexists|].
  now apply tryCommands_no_panic.
Qed.

End ParserMore.

(** ** Comments, white space and tokens *)

Lemma normalize_unfold (line : gostring) :
  normalize line = collapseSpaces (TrimSpace (hd [] (Split line (str " #")))).
Proof. reflexivity. Qed.

Lemma halved_SS (n : nat) : halved (S (S n)) = S (halved n).
Proof.
  unfold halved. replace (S (S n) + 1) with (n + 1 + 1 * 2) by lia.
  rewrite Nat.div_add by discriminate. lia.
Qed.

Lemma halved_small (n : nat) :
  halved (halved (halved n)) = 1 <-> 1 <= n <= 8.
Proof.
  unfold halved. split.
  - intros H.
    destruct (Nat.le_gt_cases n 8) as [Hle|Hgt].
    + split; [|assumption]. destruct n; [discriminate|lia].
    + exfalso.
      assert (H1 : 5 <= (n + 1) / 2)
        by (apply Nat.div_le_lower_bound; lia).
      assert (H2 : 3 <= ((n + 1) / 2 + 1) / 2)
        by (apply Nat.div_le_lower_bound; lia).
      assert (H3 : 2 <= (((n + 1) / 2 + 1) / 2 + 1) / 2)
        by (apply Nat.div_le_lower_bound; lia).
      lia.
  - intros [H1 H2].
    do 9 (destruct n as [|n]; [try lia; reflexivity|]). lia.
Qed.

(** One call of [strings.Replace] on a token, and on a run of spaces. *)
Lemma replace_word (w s : gostring) :
  forallb notSpace w = true ->
  replaceFrom (str "  ") (str " ") 0 (w ++ s)
  = w ++ replaceFrom (str "  ") (str " ") 0 s.
Proof.
  induction w as [|c w IH]; intros H; [reflexivity|].
  cbn [forallb] in H. apply andb_true_iff in H as [Hc H].
  cbn [app replaceFrom].
  replace (HasPrefix (c :: w ++ s) (str "  ")) with false.
  - now rewrite IH.
  - change (HasPrefix (c :: w ++ s) (str "  "))
      with (Ascii.eqb " " c && HasPrefix (w ++ s) (str " ")).
    unfold notSpace in Hc. rewrite Ascii.eqb_sym.
    apply negb_true_iff in Hc. now rewrite Hc.
Qed.

Lemma replace_pair (t : gostring) :
  replaceFrom (str "  ") (str " ") 0 (" "%char :: " "%char :: t)
  = " "%char :: replaceFrom (str "  ") (str " ") 0 t.
Proof. reflexivity. Qed.

Lemma replace_run (n : nat) (s : gostring) :
  HasPrefix s (str " ") = false ->
  replaceFrom (str "  ") (str " ") 0 (spaces n ++ s)
  = spaces (halved n) ++ replaceFrom (str "  ") (str " ") 0 s.
Proof.
  intros Hs.
  assert (H : forall m,
    (replaceFrom (str "  ") (str " ") 0 (spaces m ++ s)
     = spaces (halved m) ++ replaceFrom (str "  ") (str " ") 0 s)
    /\ (replaceFrom (str "  ") (str " ") 0 (spaces (S m) ++ s)
        = spaces (halved (S m)) ++ replaceFrom (str "  ") (str " ") 0 s)).
  { induction m as [|m [IH0 IH1]].
    - split; [reflexivity|].
      change (spaces 1 ++ s) with (" "%char :: s).
      cbn [replaceFrom].
      change (HasPrefix (" "%char :: s) (str "  "))
        with (Ascii.eqb " " " " && HasPrefix s (str " ")).
      now rewrite Hs.
    - split; [assumption|].
      change (spaces (S (S m)) ++ s)
        with (" "%char :: " "%char :: spaces m ++ s).
      rewrite halved_SS, replace_pair, IH0. reflexivity. }
  apply H.
Qed.

Lemma spaced_starts (w : gostring) (rest : list (nat * gostring)) :
  isWord w = true -> HasPrefix (spaced w rest) (str " ") = false.
Proof.
  destruct w as [|c w]; [discriminate|].
  cbn [isWord forallb]. intros H. apply andb_true_iff in H as [Hc _].
  assert (E : forall t, HasPrefix (c :: t) (str " ") = false).
  { intros t. change (HasPrefix (c :: t) (str " ")) with (Ascii.eqb " " c && true).
    unfold notSpace in Hc. apply negb_true_iff in Hc.
    now rewrite Ascii.eqb_sym, Hc. }
  destruct rest as [|[n w'] rest]; apply E.
Qed.

Lemma isWord_notSpace (w : gostring) :
  isWord w = true -> forallb notSpace w = true.
Proof. destruct w; [discriminate|tauto]. Qed.

Lemma replace_spaced (rest : list (nat * gostring)) (w0 : gostring) :
  forallb notSpace w0 = true ->
  forallb (fun nw => isWord (snd nw)) rest = true ->
  ReplaceAll (spaced w0 rest) (str "  ") (str " ")
  = spaced w0 (map (fun nw => (halved (fst nw), snd nw)) rest).
Proof.
  unfold ReplaceAll. revert w0; induction rest as [|[n w] rest IH];
    intros w0 H0 H.
  - cbn [spaced map]. rewrite <- (app_nil_r w0) at 1.
    rewrite replace_word by assumption. now rewrite app_nil_r.
  - cbn [forallb snd] in H. apply andb_true_iff in H as [Hw H].
    cbn [spaced map fst snd].
    rewrite replace_word by assumption.
    rewrite replace_run by now apply spaced_starts.
    rewrite IH; [reflexivity|now apply isWord_notSpace|assumption].
Qed.

Lemma map_isWord (f : nat * gostring -> nat) (rest : list (nat * gostring)) :
  forallb (fun nw => isWord (snd nw)) (map (fun nw => (f nw, snd nw)) rest)
  = forallb (fun nw => isWord (snd nw)) rest.
Proof. induction rest as [|[n w] rest IH]; cbn; [reflexivity|now rewrite IH]. Qed.

Lemma collapse_spaced (rest : list (nat * gostring)) (w0 : gostring) :
  forallb notSpace w0 = true ->
  forallb (fun nw => isWord (snd nw)) rest = true ->
  collapseSpaces (spaced w0 rest)
  = spaced w0
      (map (fun nw => (halved (halved (halved (fst nw))), snd nw)) rest).
Proof.
  intros H0 H. unfold collapseSpaces.
  rewrite replace_spaced by assumption.
  rewrite replace_spaced by (try assumption; now rewrite map_isWord).
  rewrite replace_spaced
    by (try assumption; now rewrite !map_isWord).
  rewrite !map_map. reflexivity.
Qed.

(** X17.  The three calls of [strings.Replace] turn every run of [n]
    spaces between tokens into a run of ceil(ceil(ceil(n/2)/2)/2) spaces
    and leave the tokens as they are; this is a single space exactly for
    the runs of one to eight spaces. *)
Theorem collapseSpaces_runs (w0 : gostring) (rest : list (nat * gostring)) :
  forallb notSpace w0 = true ->
  forallb (fun nw => isWord (snd nw)) rest = true ->
  collapseSpaces (spaced w0 rest)
  = spaced w0
      (map (fun nw => (halved (halved (halved (fst nw))), snd nw)) rest)
  /\ (forall n, halved (halved (halved n)) = 1 <-> 1 <= n <= 8)
  /\ (forallb (fun nw => (1 <=? fst nw) && (fst nw <=? 8)) rest = true ->
      collapseSpaces (spaced w0 rest)
      = spaced w0 (map (fun nw => (1, snd nw)) rest)).
Proof.
  intros H0 H. split; [now apply collapse_spaced|].
  split; [exact halved_small|].
  intros Hr. rewrite collapse_spaced by assumption. f_equal.
  apply map_ext_in. intros [n w] Hin. cbn [fst snd]. f_equal.
  rewrite forallb_forall in Hr. specialize (Hr _ Hin). cbn [fst] in Hr.
  apply andb_true_iff in Hr as [H1 H2].
  apply Nat.leb_le in H1. apply Nat.leb_le in H2.
  apply halved_small. lia.
Qed.

(** [strings.Split] at a space, on a token and on a run of spaces. *)
Lemma split_word (w s cur : gostring) :
  forallb notSpace w = true ->
  splitFrom (str " ") 0 cur (w ++ s) = splitFrom (str " ") 0 (rev w ++ cur) s.
Proof.
  revert cur; induction w as [|c w IH]; intros cur H; [reflexivity|].
  cbn [forallb] in H. apply andb_true_iff in H as [Hc H].
  cbn [app splitFrom].
  replace (HasPrefix (c :: w ++ s) (str " ")) with false.
  - rewrite IH by assumption. cbn [rev]. now rewrite <- app_assoc.
  - change (HasPrefix (c :: w ++ s) (str " ")) with (Ascii.eqb " " c && true).
    unfold notSpace in Hc. apply negb_true_iff in Hc.
    now rewrite Ascii.eqb_sym, Hc.
Qed.

Lemma split_space (s cur : gostring) :
  splitFrom (str " ") 0 cur (" "%char :: s)
  = rev cur :: splitFrom (str " ") 0 [] s.
Proof. reflexivity. Qed.

Lemma split_run (n : nat) (s cur : gostring) :
  splitFrom (str " ") 0 cur (spaces (S n) ++ s)
  = rev cur :: repeat [] n ++ splitFrom (str " ") 0 [] s.
Proof.
  revert cur; induction n as [|n IH]; intros cur.
  - apply split_space.
  - change (spaces (S (S n)) ++ s) with (" "%char :: spaces (S n) ++ s).
    rewrite split_space, IH. reflexivity.
Qed.

Lemma split_spaced (rest : list (nat * gostring)) (w0 cur : gostring) :
  forallb notSpace w0 = true ->
  forallb (fun nw => isWord (snd nw)) rest = true ->
  forallb (fun nw => 1 <=? fst nw) rest = true ->
  splitFrom (str " ") 0 cur (spaced w0 rest)
  = (rev cur ++ w0)
    :: flat_map (fun nw => repeat [] (fst nw - 1) ++ [snd nw]) rest.
Proof.
  revert w0 cur; induction rest as [|[n w] rest IH]; intros w0 cur H0 H Hn.
  - cbn [spaced flat_map]. rewrite <- (app_nil_r w0) at 1.
    rewrite split_word by assumption. cbn [splitFrom].
    now rewrite rev_app_distr, rev_involutive.
  - cbn [forallb fst snd] in H, Hn.
    apply andb_true_iff in H as [Hw H]. apply andb_true_iff in Hn as [H1 Hn].
    apply Nat.leb_le in H1. destruct n as [|n]; [lia|].
    cbn [spaced flat_map fst snd].
    rewrite split_word by assumption. rewrite split_run.
    rewrite IH by (try assumption; now apply isWord_notSpace).
    rewrite rev_app_distr, rev_involutive. cbn [rev app].
    replace (S n - 1) with n by lia. now rewrite <- app_assoc.
Qed.

(** X18.  [strings.Split] at a space gives back the tokens of a text made
    of tokens and runs of spaces, with [n - 1] empty tokens for a run of
    [n] spaces; for tokens joined by single spaces it gives exactly the
    tokens. *)
Theorem Split_tokens (w0 : gostring) (rest : list (nat * gostring)) :
  forallb notSpace w0 = true ->
  forallb (fun nw => isWord (snd nw)) rest = true ->
  forallb (fun nw => 1 <=? fst nw) rest = true ->
  Split (spaced w0 rest) (str " ")
  = w0 :: flat_map (fun nw => repeat [] (fst nw - 1) ++ [snd nw]) rest
  /\ Split (spaced w0 (map (fun nw => (1, snd nw)) rest)) (str " ")
     = w0 :: map (@snd nat gostring) rest.
Proof.
  intros H0 H Hn. unfold Split. split.
  - now rewrite split_spaced.
  - rewrite split_spaced; try assumption.
    + cbn [rev app]. f_equal. rewrite flat_map_concat_map, map_map.
      cbn [fst snd Nat.sub repeat app].
      rewrite <- flat_map_concat_map.
      induction rest as [|[n w] rest IH]; [reflexivity|].
      cbn [flat_map map snd app] in *.
      cbn [forallb snd fst] in H, Hn.
      apply andb_true_iff in H as [_ H]. apply andb_true_iff in Hn as [_ Hn].
      now rewrite IH.
    + now rewrite map_isWord.
    + clear. induction rest as [|[n w] rest IH]; [reflexivity|exact IH].
Qed.

(** [strings.Split] at the comment mark. *)
Lemma HasPrefix_comment (c : ascii) (t : gostring) :
  HasPrefix (c :: t) (str " #") = Ascii.eqb " " c && HasPrefix t (str "#").
Proof. reflexivity. Qed.

Lemma split_before_comment (a b cur : gostring) :
  Contains a (str " #") = false ->
  hd [] (splitFrom (str " #") 0 cur (a ++ str " #" ++ b)) = rev cur ++ a.
Proof.
  revert cur; induction a as [|c a IH]; intros cur H.
  - cbn. now rewrite app_nil_r.
  - cbn [Contains] in H. apply orb_false_iff in H as [Hp H].
    cbn [app splitFrom].
    replace (HasPrefix (c :: a ++ str " #" ++ b) (str " #")) with false.
    + rewrite IH by assumption. cbn [rev]. now rewrite <- app_assoc.
    + rewrite HasPrefix_comment in *. destruct (Ascii.eqb " " c); [|reflexivity].
      cbn [andb] in *. destruct a as [|c' a]; [reflexivity|exact (eq_sym Hp)].
Qed.

Lemma split_without_comment (a cur : gostring) :
  Contains a (str " #") = false ->
  splitFrom (str " #") 0 cur a = [rev cur ++ a].
Proof.
  revert cur; induction a as [|c a IH]; intros cur H.
  - cbn. now rewrite app_nil_r.
  - cbn [Contains] in H. apply orb_false_iff in H as [Hp H].
    cbn [splitFrom]. rewrite Hp, IH by assumption.
    cbn [rev]. now rewrite <- app_assoc.
Qed.

(** X19.  The text from the first [ #] on is discarded: a line and the
    same line followed by [ #] and any text are normalized to the same
    text. *)
Theorem comment_is_discarded (a b : gostring) :
  Contains a (str " #") = false ->
  normalize (a ++ str " #" ++ b) = normalize a.
Proof.
  intros H. rewrite !normalize_unfold. unfold Split.
  rewrite split_before_comment, split_without_comment by assumption.
  reflexivity.
Qed.

(** [strings.TrimSpace] on a text with printable ASCII at both ends. *)
Lemma isGraph_bounds (c : ascii) :
  isGraph c = true -> (33 <= code c <= 126)%N.
Proof.
  unfold isGraph. intros H. apply andb_true_iff in H as [H1 H2].
  apply N.leb_le in H1. apply N.leb_le in H2. now split.
Qed.

Lemma isGraph_not_space (c : ascii) :
  isGraph c = true ->
  isSpace1 c = false
  /\ (forall b, isSpace2 c b = false) /\ (forall b, isSpace2 b c = false)
  /\ (forall a b, isSpace3 c a b = false) /\ (forall a b, isSpace3 a b c = false).
Proof.
  intros H. apply isGraph_bounds in H.
  assert (Hne : forall k, (k < 33 \/ 126 < k)%N -> (code c =? k)%N = false)
    by (intros k Hk; apply N.eqb_neq; lia).
  assert (Hge : (128 <=? code c)%N = false) by (apply N.leb_gt; lia).
  assert (Hle : (code c <=? 13)%N = false) by (apply N.leb_gt; lia).
  unfold isSpace1, isSpace2, isSpace3.
  repeat split; intros;
    rewrite ?Hge, ?Hle, ?(Hne 32%N), ?(Hne 133%N), ?(Hne 160%N), ?(Hne 194%N),
      ?(Hne 225%N), ?(Hne 226%N), ?(Hne 227%N), ?(Hne 128%N), ?(Hne 159%N),
      ?(Hne 168%N), ?(Hne 169%N), ?(Hne 175%N) by lia;
    rewrite ?andb_false_r, ?andb_false_l, ?orb_false_r; cbn [andb orb];
    rewrite ?andb_false_r; reflexivity.
Qed.

Lemma trimLeftSpace_graph (s : gostring) :
  startsGraph s = true -> trimLeftSpace s = s.
Proof.
  destruct s as [|a s]; [discriminate|]. cbn [startsGraph]. intros H.
  destruct (isGraph_not_space _ H) as (H1 & H2 & _ & H3 & _).
  cbn [trimLeftSpace]. rewrite H1.
  destruct s as [|b s]; [reflexivity|]. rewrite H2.
  destruct s as [|c s]; [reflexivity|]. now rewrite H3.
Qed.

Lemma trimRightSpaceRev_graph (r : gostring) :
  startsGraph r = true -> trimRightSpaceRev r = r.
Proof.
  destruct r as [|a r]; [discriminate|]. cbn [startsGraph]. intros H.
  destruct (isGraph_not_space _ H) as (H1 & _ & H2 & _ & H3).
  cbn [trimRightSpaceRev]. rewrite H1.
  destruct r as [|b r]; [reflexivity|]. rewrite H2.
  destruct r as [|c r]; [reflexivity|]. now rewrite H3.
Qed.

Lemma TrimSpace_graph (s : gostring) :
  startsGraph s = true -> startsGraph (rev s) = true -> TrimSpace s = s.
Proof.
  intros H1 H2. unfold TrimSpace.
  rewrite trimLeftSpace_graph, trimRightSpaceRev_graph by assumption.
  apply rev_involutive.
Qed.

(** X20.  A line without comment mark that starts and ends with a
    printable ASCII character other than the space, and whose tokens are
    separated by runs of one to eight spaces, is normalized to its tokens
    joined by single spaces, and [strings.Split] then gives these
    tokens. *)
Theorem normalize_spaced_line (w0 : gostring) (rest : list (nat * gostring)) :
  forallb notSpace w0 = true ->
  forallb (fun nw => isWord (snd nw)) rest = true ->
  forallb (fun nw => (1 <=? fst nw) && (fst nw <=? 8)) rest = true ->
  startsGraph (spaced w0 rest) = true ->
  startsGraph (rev (spaced w0 rest)) = true ->
  Contains (spaced w0 rest) (str " #") = false ->
  normalize (spaced w0 rest) = spaced w0 (map (fun nw => (1, snd nw)) rest)
  /\ Split (normalize (spaced w0 rest)) (str " ")
     = w0 :: map (@snd nat gostring) rest.
Proof.
  intros H0 H Hr Hs He Hc.
  assert (Hn : normalize (spaced w0 rest)
               = spaced w0 (map (fun nw => (1, snd nw)) rest)).
  { rewrite normalize_unfold. unfold Split.
    rewrite split_without_comment by assumption. cbn [rev app hd].
    rewrite TrimSpace_graph by assumption.
    rewrite collapse_spaced by assumption. f_equal.
    apply map_ext_in. intros [n w] Hin. cbn [fst snd]. f_equal.
    rewrite forallb_forall in Hr. specialize (Hr _ Hin). cbn [fst] in Hr.
    apply andb_true_iff in Hr as [H1 H2].
    apply Nat.leb_le in H1. apply Nat.leb_le in H2.
    apply halved_small. lia. }
  split; [exact Hn|]. rewrite Hn. unfold Split.
  rewrite split_spaced; try assumption.
  - cbn [rev app]. f_equal.
    clear. induction rest as [|[n w] rest IH]; [reflexivity|].
    cbn [map flat_map fst snd Nat.sub repeat app]. now rewrite IH.
  - now rewrite map_isWord.
  - clear. induction rest as [|[n w] rest IH]; [reflexivity|exact IH].
Qed.

(** ** The batch driver and the [select] command *)

Section SelectMore.

Variables URL err : Type.
Variable IsCancelation : option err -> bool.
Variable glacierError : SelectCmd.Object URL err -> err.
Variable delivered : list URL -> list err.
Variable asMultierror : err -> option (list err).

Local Abbreviation Run :=
  (SelectCmd.Run IsCancelation glacierError delivered asMultierror).
Local Abbreviation kept := (SelectCmd.kept IsCancelation).
Local Abbreviation report := (SelectCmd.report IsCancelation glacierError).
Local Abbreviation step := (SelectCmd.step IsCancelation glacierError).

Lemma Run_plain_inv (setup : list (SelectCmd.Object URL err) + err) (e : err) :
  SelectCmd.value (Run setup) = SelectCmd.Plain e -> setup = inr e.
Proof.
  destruct setup as [objch|e0]; cbn.
  - rewrite collect_spec. destruct (delivered _); discriminate.
  - congruence.
Qed.

(** X21.  [Run] returns a plain error exactly when its set-up failed, and
    then it is the error of the set-up, printed once, with no task
    submitted.  After a set-up without error the collector prints every
    error the Waiter delivers; [Run] returns [nil] exactly when none was
    delivered, and otherwise an aggregate that holds, in the order of
    arrival, each delivered error itself or, for one that is a
    [*multierror.Error], its entries in its place. *)
Theorem Run_value_shape (setup : list (SelectCmd.Object URL err) + err) :
  (forall e, SelectCmd.value (Run setup) = SelectCmd.Plain e <-> setup = inr e)
  /\ (forall e, setup = inr e ->
                SelectCmd.tasks (Run setup) = []
                /\ SelectCmd.mainPrinted (Run setup) = [e]
                /\ SelectCmd.collectorPrinted (Run setup) = [])
  /\ (forall objch,
        setup = inl objch ->
        SelectCmd.collectorPrinted (Run setup)
        = delivered (SelectCmd.tasks (Run setup))
        /\ (SelectCmd.value (Run setup) = SelectCmd.Nil
            <-> delivered (SelectCmd.tasks (Run setup)) = [])
        /\ (delivered (SelectCmd.tasks (Run setup)) <> [] ->
            SelectCmd.value (Run setup)
            = SelectCmd.Aggregate
                (flat_map
                   (fun e => match asMultierror e with
                             | Some sub => sub
                             | None => [e]
                             end)
                   (delivered (SelectCmd.tasks (Run setup)))))).
Proof.
  destruct setup as [objch|e0].
  - unfold SelectCmd.Run.
    cbn [SelectCmd.value SelectCmd.tasks SelectCmd.collectorPrinted].
    rewrite collect_spec.
    split; [|split].
    + intros e. destruct (delivered _); split; discriminate.
    + intros e H. discriminate H.
    + intros objch' _. split; [reflexivity|].
      destruct (delivered _) as [|e1 errs]; split;
        try split; try congruence; try discriminate;
        try (intros; reflexivity).
  - cbn. split; [|split].
    + intros e. split; congruence.
    + intros e [= <-]. repeat split.
    + intros objch H. discriminate H.
Qed.

(** X22.  What [Run] does for an object does not depend on the other
    objects: the tasks and the reports of a channel are those of its
    parts, one after the other; no object gets both a task and a report;
    and taking the directories and the cancelled objects out of the
    channel changes nothing. *)
Theorem Run_object_by_object (a b : list (SelectCmd.Object URL err)) :
  SelectCmd.tasks (Run (inl (a ++ b)))
  = SelectCmd.tasks (Run (inl a)) ++ SelectCmd.tasks (Run (inl b))
  /\ SelectCmd.mainPrinted (Run (inl (a ++ b)))
     = SelectCmd.mainPrinted (Run (inl a)) ++ SelectCmd.mainPrinted (Run (inl b))
  /\ length (SelectCmd.tasks (Run (inl a)))
     + length (SelectCmd.mainPrinted (Run (inl a))) <= length a
  /\ Run (inl (filter (fun o => negb (SelectCmd.objIsDir o
                                      || IsCancelation (SelectCmd.objErr o)))
                 a))
     = Run (inl a).
Proof.
  assert (Hone : forall o, length (if kept o then [SelectCmd.objURL o] else [])
                           + length (report o) <= 1).
  { intros o. unfold SelectCmd.kept, SelectCmd.report.
    destruct (SelectCmd.objIsDir o); [cbn; lia|].
    destruct (IsCancelation (SelectCmd.objErr o)); [cbn; lia|].
    destruct (SelectCmd.objErr o); [cbn; lia|].
    destruct (SelectCmd.objIsGlacier o); cbn; lia. }
  destruct (Run_loop IsCancelation glacierError delivered asMultierror (a ++ b))
    as [Tab Pab].
  destruct (Run_loop IsCancelation glacierError delivered asMultierror a)
    as [Ta Pa].
  destruct (Run_loop IsCancelation glacierError delivered asMultierror b)
    as [Tb Pb].
  split; [|split; [|split]].
  - now rewrite Tab, Ta, Tb, filter_app, map_app.
  - now rewrite Pab, Pa, Pb, flat_map_app.
  - rewrite Ta, Pa. clear -Hone. induction a as [|o a IH]; [cbn; lia|].
    cbn [filter flat_map length]. specialize (Hone o).
    rewrite length_app. destruct (kept o); cbn [map length] in *; lia.
  - assert (E : SelectCmd.loop IsCancelation glacierError
                  (filter (fun o => negb (SelectCmd.objIsDir o
                                          || IsCancelation (SelectCmd.objErr o)))
                     a)
                = SelectCmd.loop IsCancelation glacierError a).
    { unfold SelectCmd.loop. generalize (SelectCmd.mkLoop (@nil err) (@nil URL)).
      clear. induction a as [|o a IH]; intros st; [reflexivity|].
      cbn [filter fold_left].
      destruct (SelectCmd.objIsDir o || IsCancelation (SelectCmd.objErr o))
        eqn:E; cbn [negb].
      - assert (Hs : step st o = st)
          by (unfold SelectCmd.step; now rewrite E).
        rewrite Hs. apply IH.
      - apply IH. }
    unfold SelectCmd.Run. now rewrite E.
Qed.

End SelectMore.

Section SelectEntryFacts.

Variables URL err client : Type.
Variable urlNew : gostring -> URL + err.
Variable IsRemote : URL -> bool.
Variable NewRemoteClient : URL -> client + err.
Variable expandSource : client -> URL -> list (SelectCmd.Object URL err) + err.
Variable IsCancelation : option err -> bool.
Variable glacierError : SelectCmd.Object URL err -> err.
Variable delivered : list URL -> list err.
Variable asMultierror : err -> option (list err).
Variable errorf : gostring -> err.

Local Abbreviation validateArgs :=
  (SelectEntry.validateSelectCommand urlNew IsRemote errorf).
Local Abbreviation action :=
  (SelectEntry.Action urlNew NewRemoteClient expandSource IsCancelation
     glacierError delivered asMultierror).
Local Abbreviation command :=
  (SelectEntry.selectCommand urlNew IsRemote NewRemoteClient expandSource
     IsCancelation glacierError delivered asMultierror errorf).

(** X23.  The [select] command runs its action exactly for one argument
    that parses as a remote URL; the action then parses the same argument
    again, so that a plain error it returns is never that of [url.New]: it
    comes from the client or from the expansion of the source. *)
Theorem select_runs_for_one_remote_source (args : list gostring) :
  ((exists r, command args = inr r)
   <-> exists src u, args = [src] /\ urlNew src = inl u /\ IsRemote u = true)
  /\ (forall r e,
        command args = inr r ->
        SelectCmd.value r = SelectCmd.Plain e ->
        exists src u,
          args = [src] /\ urlNew src = inl u
          /\ (NewRemoteClient u = inr e
              \/ exists cl, NewRemoteClient u = inl cl
                            /\ expandSource cl u = inr e)).
Proof.
  unfold SelectEntry.selectCommand, SelectEntry.validateSelectCommand.
  destruct args as [|src [|x args]]; cbn [length Nat.eqb negb].
  - split; [split|]; [intros [r H]; discriminate| |intros r e H; discriminate].
    intros (src & u & H & _). discriminate.
  - unfold SelectEntry.Get0. cbn [hd].
    destruct (urlNew src) as [u|e0] eqn:Hu.
    + destruct (IsRemote u) eqn:Hr; cbn [negb].
      * split.
        -- split; [intros _; now exists src, u|intros _; now eexists].
        -- intros r e [= <-]. unfold SelectEntry.Action, SelectEntry.setUp.
           unfold SelectEntry.Get0. cbn [hd]. rewrite Hu.
           destruct (NewRemoteClient u) as [cl|e1] eqn:Hc.
           ++ destruct (expandSource cl u) as [objch|e2] eqn:He.
              ** intros H. apply Run_plain_inv in H.
                 discriminate.
              ** intros H. apply Run_plain_inv in H.
                 injection H as <-. exists src, u. repeat split; try assumption.
                 right. now exists cl.
           ++ intros H. apply Run_plain_inv in H.
              injection H as <-. exists src, u. repeat split; try assumption.
              now left.
      * split; [split|]; [intros [r H]; discriminate| |intros r e H; discriminate].
        intros (s & u' & [= <-] & Hu' & Hr'). congruence.
    + split; [split|]; [intros [r H]; discriminate| |intros r e H; discriminate].
      intros (s & u' & [= <-] & Hu' & _). congruence.
  - split; [split|]; [intros [r H]; discriminate| |intros r e H; discriminate].
    intros (s & u & H & _). discriminate.
Qed.

End SelectEntryFacts.

(** ** The chaining patterns, in both directions *)

Lemma wsStar_fits k (s : gostring) m :
  wsStar k s = Some m ->
  exists w t, s = w ++ t /\ isWhite w = true /\ k t = Some m.
Proof.
  induction s as [|c s IH]; simpl.
  - intros H. now exists [], [].
  - destruct (isReSpace c) eqn:Hc.
    + destruct (wsStar k s) as [m'|] eqn:E.
      * intros [= <-]. destruct (IH eq_refl) as (w & t & -> & Hw & H).
        exists (c :: w), t. repeat split; [|assumption].
        unfold isWhite in *. simpl. now rewrite Hc.
      * intros H. now exists [], (c :: s).
    + intros H. now exists [], (c :: s).
Qed.

Lemma grpLazy_fits k (acc s : gostring) m :
  grpLazy k acc s = Some m ->
  exists g t m', s = g ++ t /\ isCaptured g = true
                 /\ m = (rev acc ++ g) :: m' /\ k t = Some m'.
Proof.
  revert acc; induction s as [|c s IH]; intros acc; simpl; [discriminate|].
  destruct (isDot c) eqn:Hc; [|discriminate].
  destruct (k s) as [m'|] eqn:E.
  - intros [= <-]. exists [c], s, m'. repeat split; [|assumption].
    unfold isCaptured, noNewline. simpl. now rewrite Hc.
  - intros H. destruct (IH _ H) as (g & t & m' & -> & Hg & -> & Hk).
    exists (c :: g), t, m'. repeat split; [| |assumption].
    + unfold isCaptured, noNewline in *. destruct g; [discriminate|].
      cbn [forallb] in *. now rewrite Hc.
    + simpl. now rewrite <- app_assoc.
Qed.

Lemma rmatch_fits (r : list item) (s : gostring) m :
  rmatch r s = Some m -> fits r s m.
Proof.
  revert s m; induction r as [|i r IH]; intros s m; cbn [rmatch fits].
  - unfold atEnd. destruct s; [intros [= <-]; now split|discriminate].
  - destruct i as [|l|].
    + intros H. apply wsStar_fits in H as (w & t & -> & Hw & H).
      exists w, t. repeat split; [assumption|now apply IH].
    + unfold literal. destruct (dropPrefix l s) as [t|] eqn:E; [|discriminate].
      intros H. apply dropPrefix_Some in E. exists t. split; [assumption|].
      now apply IH.
    + intros H. apply grpLazy_fits in H as (g & t & m' & -> & Hg & -> & H).
      exists g, t, m'. repeat split; [assumption|now apply IH].
Qed.

Lemma wsStar_finds k (w t : gostring) :
  isWhite w = true ->
  (exists m, k t = Some m) -> exists m, wsStar k (w ++ t) = Some m.
Proof.
  intros Hw Hk. induction w as [|c w IH].
  - destruct Hk as [m Hk]. destruct t as [|c t]; simpl; [now exists m|].
    destruct (isReSpace c); [|now exists m].
    destruct (wsStar k t) as [m'|]; [now exists m'|now exists m].
  - unfold isWhite in Hw. simpl in Hw. apply andb_true_iff in Hw as [Hc Hw].
    destruct (IH Hw) as [m Hm]. simpl. rewrite Hc, Hm. now exists m.
Qed.

Lemma grpLazy_finds k (g t acc : gostring) :
  isCaptured g = true ->
  (exists m, k t = Some m) -> exists m, grpLazy k acc (g ++ t) = Some m.
Proof.
  intros Hg Hk. revert acc. induction g as [|c g IH]; intros acc;
    [discriminate|].
  unfold isCaptured, noNewline in Hg. cbn [forallb] in Hg.
  apply andb_true_iff in Hg as [Hc Hg]. simpl. rewrite Hc.
  destruct (k (g ++ t)) as [m'|] eqn:E; [now eexists|].
  destruct g as [|c' g].
  - simpl in E. destruct Hk as [m Hk]. congruence.
  - apply IH. exact Hg.
Qed.

Lemma rmatch_finds (r : list item) (s : gostring) m :
  fits r s m -> exists m', rmatch r s = Some m'.
Proof.
  revert s m; induction r as [|i r IH]; intros s m; cbn [rmatch fits].
  - intros [-> _]. now exists [].
  - destruct i as [|l|].
    + intros (w & t & -> & Hw & H). apply wsStar_finds; [assumption|].
      now apply (IH _ m).
    + intros (t & -> & H). unfold literal. rewrite dropPrefix_app.
      now apply (IH _ m).
    + intros (g & t & m' & -> & Hg & -> & H). apply grpLazy_finds; [assumption|].
      now apply (IH _ m').
Qed.

Lemma FindStringSubmatch_fits (re : list item) (line : gostring) res :
  FindStringSubmatch re line = Some res ->
  exists m, res = line :: m /\ fits re line m.
Proof.
  unfold FindStringSubmatch. destruct (rmatch re line) as [m|] eqn:E;
    [|discriminate].
  intros [= <-]. exists m. split; [reflexivity|now apply rmatch_fits].
Qed.

Lemma FindStringSubmatch_finds (re : list item) (line : gostring) m :
  fits re line m -> exists res, FindStringSubmatch re line = Some res.
Proof.
  intros H. apply rmatch_finds in H as [m' H]. unfold FindStringSubmatch.
  rewrite H. now eexists.
Qed.

Ltac white_all :=
  cbn [forallb];
  repeat match goal with
         | H : ?x = true |- context [?x] => rewrite H
         end;
  reflexivity.

Ltac white_split H :=
  cbn [forallb] in H;
  repeat match type of H with
         | (_ && _)%bool = true =>
             let H1 := fresh "W" in
             apply andb_true_iff in H as [H1 H]
         end.

(** X24.  What the three patterns match, in both directions.  A line is
    matched by a pattern exactly when it can be cut into segments and
    operators in the pattern's order, each segment with at least one
    character and no newline, with nothing but white space before, between
    and after them; and the groups a match returns, after the line itself,
    are the segments of such a cut. *)
Theorem chaining_patterns_shapes (line : gostring) :
  ((forall res, FindStringSubmatch regexCmdAndOr line = Some res ->
                exists a b c, res = [line; a; b; c] /\ shapeAndOr line a b c)
   /\ (forall a b c, shapeAndOr line a b c ->
                     exists res, FindStringSubmatch regexCmdAndOr line = Some res))
  /\ ((forall res, FindStringSubmatch regexCmdAnd line = Some res ->
                   exists a b, res = [line; a; b] /\ shapeAnd line a b)
      /\ (forall a b, shapeAnd line a b ->
                      exists res, FindStringSubmatch regexCmdAnd line = Some res))
  /\ ((forall res, FindStringSubmatch regexCmdOr line = Some res ->
                   exists a b, res = [line; a; b] /\ shapeOr line a b)
      /\ (forall a b, shapeOr line a b ->
                      exists res, FindStringSubmatch regexCmdOr line = Some res)).
Proof.
  split; [|split]; split.
  - intros res H. apply FindStringSubmatch_fits in H as (m & -> & H).
    cbn [fits regexCmdAndOr] in H.
    destruct H as (w1 & t1 & -> & W1 & a & t2 & m2 & -> & Ca & -> &
                   w2 & t3 & -> & W2 & t4 & -> &
                   w3 & t5 & -> & W3 & b & t6 & m6 & -> & Cb & -> &
                   w4 & t7 & -> & W4 & t8 & -> &
                   w5 & t9 & -> & W5 & c & t10 & m10 & -> & Cc & -> &
                   w6 & t11 & -> & W6 & -> & ->).
    exists a, b, c. split; [reflexivity|].
    exists w1, w2, w3, w4, w5, w6. rewrite !app_nil_r.
    split; [reflexivity|]. split; white_all.
  - intros a b c (w1 & w2 & w3 & w4 & w5 & w6 & -> & HW & HC).
    white_split HW. white_split HC.
    apply FindStringSubmatch_finds with (m := [a; b; c]).
    cbn [fits regexCmdAndOr].
    exists w1; eexists; split; [reflexivity|]; split; [assumption|].
    exists a; do 2 eexists; split; [reflexivity|]; split; [assumption|];
      split; [reflexivity|].
    exists w2; eexists; split; [reflexivity|]; split; [assumption|].
    eexists; split; [reflexivity|].
    exists w3; eexists; split; [reflexivity|]; split; [assumption|].
    exists b; do 2 eexists; split; [reflexivity|]; split; [assumption|];
      split; [reflexivity|].
    exists w4; eexists; split; [reflexivity|]; split; [assumption|].
    eexists; split; [reflexivity|].
    exists w5; eexists; split; [reflexivity|]; split; [assumption|].
    exists c; do 2 eexists; split; [reflexivity|]; split; [assumption|];
      split; [reflexivity|].
    exists w6, []; split; [now rewrite app_nil_r|]; split; [assumption|].
    now split.
  - intros res H. apply FindStringSubmatch_fits in H as (m & -> & H).
    cbn [fits regexCmdAnd] in H.
    destruct H as (w1 & t1 & -> & W1 & a & t2 & m2 & -> & Ca & -> &
                   w2 & t3 & -> & W2 & t4 & -> &
                   w3 & t5 & -> & W3 & b & t6 & m6 & -> & Cb & -> &
                   w4 & t7 & -> & W4 & -> & ->).
    exists a, b. split; [reflexivity|].
    exists w1, w2, w3, w4. rewrite !app_nil_r.
    split; [reflexivity|]. split; white_all.
  - intros a b (w1 & w2 & w3 & w4 & -> & HW & HC).
    white_split HW. white_split HC.
    apply FindStringSubmatch_finds with (m := [a; b]).
    cbn [fits regexCmdAnd].
    exists w1; eexists; split; [reflexivity|]; split; [assumption|].
    exists a; do 2 eexists; split; [reflexivity|]; split; [assumption|];
      split; [reflexivity|].
    exists w2; eexists; split; [reflexivity|]; split; [assumption|].
    eexists; split; [reflexivity|].
    exists w3; eexists; split; [reflexivity|]; split; [assumption|].
    exists b; do 2 eexists; split; [reflexivity|]; split; [assumption|];
      split; [reflexivity|].
    exists w4, []; split; [now rewrite app_nil_r|]; split; [assumption|].
    now split.
  - intros res H. apply FindStringSubmatch_fits in H as (m & -> & H).
    cbn [fits regexCmdOr] in H.
    destruct H as (w1 & t1 & -> & W1 & a & t2 & m2 & -> & Ca & -> &
                   w2 & t3 & -> & W2 & t4 & -> &
                   w3 & t5 & -> & W3 & b & t6 & m6 & -> & Cb & -> &
                   w4 & t7 & -> & W4 & -> & ->).
    exists a, b. split; [reflexivity|].
    exists w1, w2, w3, w4. rewrite !app_nil_r.
    split; [reflexivity|]. split; white_all.
  - intros a b (w1 & w2 & w3 & w4 & -> & HW & HC).
    white_split HW. white_split HC.
    apply FindStringSubmatch_finds with (m := [a; b]).
    cbn [fits regexCmdOr].
    exists w1; eexists; split; [reflexivity|]; split; [assumption|].
    exists a; do 2 eexists; split; [reflexivity|]; split; [assumption|];
      split; [reflexivity|].
    exists w2; eexists; split; [reflexivity|]; split; [assumption|].
    eexists; split; [reflexivity|].
    exists w3; eexists; split; [reflexivity|]; split; [assumption|].
    exists b; do 2 eexists; split; [reflexivity|]; split; [assumption|];
      split; [reflexivity|].
    exists w4, []; split; [now rewrite app_nil_r|]; split; [assumption|].
    now split.
Qed.

(** * The further properties on the sample installation *)

(** The file [a.txt] is no remote object. *)
Lemma local_and_remote_exclude_witness :
  (exists e, Sample.parseArgumentByType (str "a.txt") FileObj None = Err e)
  \/ (exists e, Sample.parseArgumentByType (str "a.txt") S3Obj None = Err e).
Proof.
  exact (@local_and_remote_exclude Sample.ParseS3Url Sample.Format
           Sample.wildChars Sample.Stat Sample.MatchErr (str "a.txt")
           FileObj S3Obj None None eq_refl eq_refl).
Defined.

(** A key with no wildcard and no separator at its end. *)
Lemma remote_types_accept_witness :
  exists a, Sample.parseArgumentByType (str "s3://bucket/key") S3Obj None = Ok a.
Proof.
  exact (proj2 (proj1 (@remote_types_accept Sample.ParseS3Url Sample.Format
                         Sample.wildChars Sample.Stat Sample.MatchErr
                         (str "s3://bucket/key")
                         (mkS3Url (str "bucket") (str "key")) None eq_refl))
           (conj eq_refl eq_refl)).
Defined.

(** A directory that does not exist yet. *)
Lemma Dir_result_ends_in_separator_witness :
  str "new/" = str "new" ++ [Separator]
  /\ Sample.Stat (str "new") <> StatOk false
  /\ Sample.Stat (str "new") <> StatFail.
Proof.
  exact (proj2 (proj2 (proj2 (proj2
           (@Dir_result_ends_in_separator Sample.ParseS3Url Sample.Format
              Sample.wildChars Sample.Stat Sample.MatchErr (str "new") None
              (mkArg (str "new/") None) eq_refl))))
           eq_refl).
Defined.

(** The canonical string of that directory, validated again. *)
Lemma Dir_canonical_is_fixed_witness :
  Sample.parseArgumentByType (str "new/") Dir None
  = Ok (mkArg (str "new/") None)
  /\ statCalls Sample.ParseS3Url Sample.Format Sample.wildChars Sample.Stat
       Sample.MatchErr (str "new/") Dir None = [].
Proof.
  exact (@Dir_canonical_is_fixed Sample.ParseS3Url Sample.Format
           Sample.wildChars Sample.Stat Sample.MatchErr (str "new") None None
           (mkArg (str "new/") None) (str "S3 url should start with s3://")
           eq_refl eq_refl).
Defined.

(** A path that [os.Stat] cannot read is refused as [FileOrDir]. *)
Lemma FileOrDir_accepts_witness :
  Sample.parseArgumentByType (str "locked") FileOrDir None
  = Err (str "Could not stat").
Proof.
  exact (proj1 (proj2 (@FileOrDir_accepts Sample.ParseS3Url Sample.Format
                         Sample.wildChars Sample.Stat Sample.MatchErr
                         (str "locked") None
                         (str "S3 url should start with s3://")
                         eq_refl eq_refl))
           eq_refl eq_refl).
Defined.

(** A token with a wildcard is no local file. *)
Lemma local_and_glob_exclude_witness :
  (exists e, Sample.parseArgumentByType (str "a*") FileObj None = Err e)
  \/ (exists e, Sample.parseArgumentByType (str "a*") Glob None = Err e).
Proof.
  exact (@local_and_glob_exclude Sample.ParseS3Url Sample.Format
           Sample.wildChars Sample.Stat Sample.MatchErr (str "a*")
           FileObj None None eq_refl).
Defined.

(** The sample table has no [mv]. *)
Lemma unknown_command_witness :
  Sample.parseSingleJob (str "mv a.txt b/")
  = Fails (unknownCommand (str "mv")).
Proof.
  refine (@unknown_command _ _ Sample.GetAcceptedOpts Sample.GetParam
            Sample.ParseS3Url Sample.Format Sample.wildChars Sample.Stat
            Sample.MatchErr Sample.commands (str "mv a.txt b/")
            _ eq_refl eq_refl eq_refl _).
  - discriminate.
  - intros c [<-|[<-|[<-|[]]]]; discriminate.
Defined.

(** [cp] with a second argument that [os.Stat] cannot read. *)
Lemma invalid_parameters_witness :
  exists detail,
    Sample.parseSingleJob (str "cp a.txt locked")
    = Fails (invalidParameters (str "cp") ++ detail)
    /\ (detail = [] \/ exists e, detail = str ": " ++ e).
Proof.
  refine (@invalid_parameters _ _ Sample.GetAcceptedOpts Sample.GetParam
            Sample.ParseS3Url Sample.Format Sample.wildChars Sample.Stat
            Sample.MatchErr Sample.commands (str "cp a.txt locked")
            _ eq_refl eq_refl eq_refl _ _).
  - discriminate.
  - exists (mkCommand (str "cp") Sample.OpLocalCopy [FileObj; FileOrDir] []).
    split; [right; left; reflexivity|reflexivity].
  - intros c [<-|[<-|[<-|[]]]] Hk; try discriminate Hk.
    right. eexists. reflexivity.
Defined.

(** A table with two entries for [cp]: the first wants a directory as the
    destination, the second takes a file as well. *)
Lemma first_match_wins_witness :
  parseSingleJob Sample.GetAcceptedOpts Sample.GetParam Sample.ParseS3Url
    Sample.Format Sample.wildChars Sample.Stat Sample.MatchErr
    [ mkCommand (str "cp") Sample.OpLocalCopy [FileObj; Dir] [];
      mkCommand (str "cp") Sample.OpLocalCopy [FileObj; FileOrDir] [] ]
    (str "cp a.txt a.txt")
  = Returns
      (Some (mkJob (str "cp a.txt a.txt") (str "cp") Sample.OpLocalCopy
               [mkArg (str "a.txt") None; mkArg (str "a.txt") None]
               [] None None 0 0)).
Proof.
  refine (@first_match_wins _ _ Sample.GetAcceptedOpts Sample.GetParam
            Sample.ParseS3Url Sample.Format Sample.wildChars Sample.Stat
            Sample.MatchErr _ (str "cp a.txt a.txt")
            [mkCommand (str "cp") Sample.OpLocalCopy [FileObj; Dir] []]
            []
            (mkCommand (str "cp") Sample.OpLocalCopy [FileObj; FileOrDir] [])
            _ _ eq_refl eq_refl eq_refl eq_refl _ eq_refl eq_refl).
  - discriminate.
  - intros c' [<-|[]] _. right. eexists. reflexivity.
Defined.

(** [cp] with one option. *)
Lemma returned_job_shape_witness :
  exists c,
    In c Sample.commands
    /\ keyword c = str "cp"
    /\ Sample.OpLocalCopy = operation c
    /\ length (params c) <= 2
    /\ (isVariadic (params c) = false -> 2 = length (params c))
    /\ exists extra,
         [Sample.OptNoClobber] = opts c ++ extra
         /\ forall x, In x extra -> In x (Sample.GetAcceptedOpts (operation c)).
Proof.
  exact (proj2 (proj2 (proj2 (proj2 (proj2 (proj2 (proj2 (proj2
           (@returned_job_shape _ _ Sample.GetAcceptedOpts Sample.GetParam
              Sample.ParseS3Url Sample.Format Sample.wildChars Sample.Stat
              Sample.MatchErr Sample.commands (str "cp -n a.txt b/")
              (mkJob (str "cp -n a.txt b/") (str "cp") Sample.OpLocalCopy
                 [mkArg (str "a.txt") None; mkArg (str "b/a.txt") None]
                 [Sample.OptNoClobber] None None 0 0)
              eq_refl))))))))).
Defined.

(** A copy with a job for either outcome. *)
Lemma ParseJob_tree_is_flat_witness :
  Sample.parseSingleJob (str "echo done")
  = Returns (Some (mkJob (str "echo done") (str "echo") Sample.OpEcho
                     [mkArg (str "done") None] [] None None 0 0))
  /\ Contains (str "echo done") (str "&&") = false
  /\ Contains (str "echo done") (str "||") = false
  /\ @None (Job Sample.Operation Sample.OptionType) = None
  /\ @None (Job Sample.Operation Sample.OptionType) = None.
Proof.
  exact (proj2 (proj2 (proj2
           (@ParseJob_tree_is_flat _ _ Sample.GetAcceptedOpts Sample.GetParam
              Sample.ParseS3Url Sample.Format Sample.wildChars Sample.Stat
              Sample.MatchErr Sample.commands
              (str "cp a.txt b/ && echo done || echo failed")
              (mkJob (str "cp a.txt b/") (str "cp") Sample.OpLocalCopy
                 [mkArg (str "a.txt") None; mkArg (str "b/a.txt") None] []
                 (Some (mkJob (str "echo done") (str "echo") Sample.OpEcho
                          [mkArg (str "done") None] [] None None 0 0))
                 (Some (mkJob (str "echo failed") (str "echo") Sample.OpEcho
                          [mkArg (str "failed") None] [] None None 0 0))
                 0 0)
              eq_refl)))
           (mkJob (str "echo done") (str "echo") Sample.OpEcho
              [mkArg (str "done") None] [] None None 0 0)
           (or_introl eq_refl)).
Defined.

(** A segment with single spaces. *)
Lemma no_panic_without_empty_token_witness :
  (exists j, Sample.parseSingleJob (str "cp -x a.txt b/") = Returns j)
  \/ (exists e, Sample.parseSingleJob (str "cp -x a.txt b/") = Fails e).
Proof.
  exact (@no_panic_without_empty_token _ _ Sample.GetAcceptedOpts
           Sample.GetParam Sample.ParseS3Url Sample.Format Sample.wildChars
           Sample.Stat Sample.MatchErr Sample.commands (str "cp -x a.txt b/")
           eq_refl).
Defined.

(** Runs of three and of eight spaces. *)
Lemma collapseSpaces_runs_witness :
  collapseSpaces (str "cp   a.txt        b/") = str "cp a.txt b/".
Proof.
  exact (proj2 (proj2 (@collapseSpaces_runs (str "cp")
                         [(3, str "a.txt"); (8, str "b/")] eq_refl eq_refl))
           eq_refl).
Defined.

(** A run of three spaces gives two empty tokens. *)
Lemma Split_tokens_witness :
  Split (str "cp   a.txt b/") (str " ")
  = [str "cp"; []; []; str "a.txt"; str "b/"].
Proof.
  exact (proj1 (@Split_tokens (str "cp") [(3, str "a.txt"); (1, str "b/")]
                  eq_refl eq_refl eq_refl)).
Defined.

(** A comment after a command. *)
Lemma comment_is_discarded_witness :
  normalize (str "cp a.txt b/ # copy && echo done") = normalize (str "cp a.txt b/").
Proof.
  exact (@comment_is_discarded (str "cp a.txt b/") (str " copy && echo done")
           eq_refl).
Defined.

(** A line with runs of two and of five spaces. *)
Lemma normalize_spaced_line_witness :
  normalize (str "cp  a.txt     b/") = str "cp a.txt b/"
  /\ Split (normalize (str "cp  a.txt     b/")) (str " ")
     = [str "cp"; str "a.txt"; str "b/"].
Proof.
  exact (@normalize_spaced_line (str "cp") [(2, str "a.txt"); (5, str "b/")]
           eq_refl eq_refl eq_refl eq_refl eq_refl eq_refl).
Defined.

(** The name of [dir/a.txt] under the directory [b/]. *)
Lemma FileOrDir_borrows_basename_witness :
  Sample.parseArgumentByType (str "b/") FileOrDir
    (Some (mkArg (str "dir/a.txt") None))
  = Ok (mkArg (str "b/a.txt") None).
Proof.
  exact (proj1 (@FileOrDir_borrows_basename Sample.ParseS3Url Sample.Format
                  Sample.wildChars Sample.Stat Sample.MatchErr (str "b/")
                  (mkArg (str "dir/a.txt") None)
                  (str "S3 url should start with s3://")
                  eq_refl eq_refl eq_refl)).
Defined.
